(** * todo-collector: the TODO extractor, the file discoverer and the driver

    A shallow embedding of [todo-collector.py].  The script walks a directory
    tree, keeps the files whose path ends in [.md], scans each of them line by
    line for entries of the form [- [x] [Who] What] and writes the entries of
    one person to a report.

    Python strings are modelled as [string]; a character is a code point
    below 256.  The operating system (path canonicalisation, file types,
    directory listings, file contents, the output sink) is a record of
    functions, so every definition below can be run on a concrete tree.
    The global [DEBUG] keeps its initial value [False]: [pdebug] prints
    nothing, and [perror] writes to the error stream only. *)

From Stdlib Require Import Bool Arith Lia List ZArith Ascii String.
Import ListNotations.

Local Open Scope string_scope.
Local Open Scope list_scope.

(** ** Python string primitives *)

Module PyStr.

(** [s[:n]] for [n >= 0]. *)
Fixpoint slice_to (n : nat) (s : string) : string :=
  match n, s with
  | S n', String c s' => String c (slice_to n' s')
  | _, _ => EmptyString
  end.

(** [s[n:]] for [n >= 0]. *)
Fixpoint slice_from (n : nat) (s : string) : string :=
  match n, s with
  | S n', String _ s' => slice_from n' s'
  | _, _ => s
  end.

(** [s[-n:]] for [n > 0]: the start index [len(s) - n] is clamped at 0. *)
Definition slice_last (n : nat) (s : string) : string :=
  slice_from (String.length s - n) s.

(** [s.find(c)] for a one-character needle; [None] stands for Python's -1. *)
Fixpoint find (c : ascii) (s : string) : option nat :=
  match s with
  | EmptyString => None
  | String d s' =>
      if Ascii.eqb d c then Some 0
      else match find c s' with
           | Some i => Some (S i)
           | None => None
           end
  end.

(** [c in s] for a one-character needle. *)
Fixpoint contains (c : ascii) (s : string) : bool :=
  match s with
  | EmptyString => false
  | String d s' => Ascii.eqb d c || contains c s'
  end.

(** [s.startswith(p)]. *)
Definition startswith (p s : string) : bool := String.prefix p s.

(** [s.endswith(p)]. *)
Definition endswith (p s : string) : bool :=
  (String.length p <=? String.length s)%nat
  && (slice_from (String.length s - String.length p) s =? p)%string.

(** [str.isspace] on one code point below 256: TAB, LF, VT, FF, CR, the
    four information separators 28..31, SPACE, NEL (133) and NBSP (160). *)
Definition isspace (c : ascii) : bool :=
  let n := nat_of_ascii c in
  (((9 <=? n) && (n <=? 13)) || ((28 <=? n) && (n <=? 32))
  || (n =? 133) || (n =? 160))%nat.

(** [s.lstrip()]. *)
Fixpoint lstrip (s : string) : string :=
  match s with
  | EmptyString => EmptyString
  | String c s' => if isspace c then lstrip s' else s
  end.

(** [s.rstrip()]. *)
Fixpoint rstrip (s : string) : string :=
  match s with
  | EmptyString => EmptyString
  | String c s' =>
      match rstrip s' with
      | EmptyString => if isspace c then EmptyString else String c EmptyString
      | r => String c r
      end
  end.

(** [s.strip()]. *)
Definition strip (s : string) : string := lstrip (rstrip s).

End PyStr.

Import PyStr.

(** The line feed and carriage return characters. *)
Definition LF : ascii := ascii_of_nat 10.
Definition CR : ascii := ascii_of_nat 13.
Definition nl : string := String LF EmptyString.

(** ** The [Todo] class *)

Record Todo : Type := mkTodo {
  done : bool;    (* whether it has been done *)
  who  : string;  (* who does it *)
  what : string;  (* what to do *)
  file : string   (* where it was found *)
}.

(** ** The TODO extractor: [analyze_todos_in_file] *)

(** The parsing half of the loop body (the tests on the prefix, the checkbox
    and the closing bracket): the [done] flag, the name and the text
    after the bracket, or [None] where the body leaves the line ([continue] or
    a failed prefix test). *)
Definition line_fields (line : string) : option (bool * string * string) :=
  if (3 <=? String.length line)%nat && (slice_to 3 line =? "- [") then
    let line := slice_from 3 line in
    let '(done, line) :=
      if (4 <=? String.length line)%nat && (slice_to 4 line =? "x] [") then
        (true, slice_from 4 line)
      else if (4 <=? String.length line)%nat && (slice_to 4 line =? " ] [") then
        (false, slice_from 4 line)
      else (false, line) in
    match find "]" line with
    | Some pos => Some (done, slice_to pos line, slice_from (pos + 1) line)
    | None => None
    end
  else None.

(** The record the loop body appends for a line, if any. *)
Definition line_todo (path who : string) (line : string) : option Todo :=
  match line_fields line with
  | Some (done, name, rest) =>
      if name =? who then Some (mkTodo done name (strip rest) path) else None
  | None => None
  end.

(** One iteration of the loop over the lines, on the list [todos]. *)
Definition analyze_line (path who : string) (todos : list Todo) (line : string)
  : list Todo :=
  match line_todo path who line with
  | Some t => todos ++ [t]
  | None => todos
  end.

(** The records of a line as a list: empty or a single record. *)
Definition line_todos (path who : string) (line : string) : list Todo :=
  match line_todo path who line with
  | Some t => [t]
  | None => []
  end.

(** The whole loop, started from the list [todos]. *)
Definition analyze_lines (path who : string) (lines : list string)
  (todos : list Todo) : list Todo :=
  fold_left (analyze_line path who) lines todos.

(** The same parsing with every slice checked against the length of the
    string it is taken from: the outer [None] is an index beyond the end.
    [and] evaluates its right operand only when the left one holds. *)
Definition checked_slice_to (n : nat) (s : string) : option string :=
  if (n <=? String.length s)%nat then Some (slice_to n s) else None.

Definition checked_slice_from (n : nat) (s : string) : option string :=
  if (n <=? String.length s)%nat then Some (slice_from n s) else None.

Definition checked_starts (n : nat) (p s : string) : option bool :=
  if (n <=? String.length s)%nat then
    match checked_slice_to n s with
    | Some q => Some (q =? p)
    | None => None
    end
  else Some false.

Definition checked_name (done : bool) (line : string)
  : option (option (bool * string * string)) :=
  match find "]" line with
  | Some pos =>
      match checked_slice_to pos line, checked_slice_from (pos + 1) line with
      | Some name, Some rest => Some (Some (done, name, rest))
      | _, _ => None
      end
  | None => Some None
  end.

Definition checked_skip (n : nat) (line : string)
  (k : string -> option (option (bool * string * string)))
  : option (option (bool * string * string)) :=
  match checked_slice_from n line with
  | Some line' => k line'
  | None => None
  end.

Definition checked_line_fields (line : string)
  : option (option (bool * string * string)) :=
  match checked_starts 3 "- [" line with
  | None => None
  | Some false => Some None
  | Some true =>
      checked_skip 3 line (fun line =>
        match checked_starts 4 "x] [" line with
        | None => None
        | Some true => checked_skip 4 line (checked_name true)
        | Some false =>
            match checked_starts 4 " ] [" line with
            | None => None
            | Some true => checked_skip 4 line (checked_name false)
            | Some false => checked_name false line
            end
        end)
  end.

(** Text mode with the default [newline=None]: a CR LF pair and a lone CR are
    both read as LF. *)
Fixpoint universal_newlines (s : string) : string :=
  match s with
  | EmptyString => EmptyString
  | String c rest =>
      if Ascii.eqb c CR then
        match rest with
        | String c' rest' =>
            if Ascii.eqb c' LF then String LF (universal_newlines rest')
            else String LF (universal_newlines rest)
        | EmptyString => String LF EmptyString
        end
      else String c (universal_newlines rest)
  end.

(** [h.readlines()] on translated text: the lines, each with its line feed;
    the last line has none when the text does not end in one. *)
Fixpoint readlines (text : string) : list string :=
  match text with
  | EmptyString => []
  | String c rest =>
      if Ascii.eqb c LF then String c EmptyString :: readlines rest
      else match readlines rest with
           | [] => [String c EmptyString]
           | l :: ls => String c l :: ls
           end
  end.

(** ** The operating system *)

(** The outcome of a call that may raise [IOError]; [errno] is the
    exception's error number. *)
Inductive io_result (A : Type) : Type :=
| Ok (a : A)
| IOError (errno : Z).

Arguments Ok {A} a.
Arguments IOError {A} errno.

Record OS : Type := mkOS {
  (* os.path.abspath *)
  abspath : string -> io_result string;
  (* os.path.isfile *)
  isfile : string -> bool;
  (* os.path.isdir *)
  isdir : string -> bool;
  (* os.listdir *)
  listdir : string -> io_result (list string);
  (* open(path, "r") and reading it to the end: the decoded characters *)
  read_text : string -> io_result string;
  (* open(output, "w") *)
  open_write : string -> io_result unit;
  (* h.write(chunk) on the output, after the chunks in [written]: the errno
     when it raises *)
  write_error : string -> list string -> string -> option Z
}.

(** Reads the file and runs the loop over its lines.  A failure to open or
    read the file leaves the function as an [IOError]. *)
Definition analyze_todos_in_file (os : OS) (path who : string)
  : io_result (list Todo) :=
  match read_text os path with
  | IOError e => IOError e
  | Ok text => Ok (analyze_lines path who (readlines (universal_newlines text)) [])
  end.

(** ** The file discoverer: [get_markdown_files] *)

(** [os.path.join a b] on POSIX. *)
Definition path_join (a b : string) : string :=
  if startswith "/" b then b
  else if (a =? EmptyString) || endswith "/" a then a ++ b
  else a ++ "/" ++ b.

(** [l.pop()]: the list without its last element, and that element. *)
Fixpoint pop {A : Type} (l : list A) : option (list A * A) :=
  match l with
  | [] => None
  | x :: l' =>
      match pop l' with
      | None => Some ([], x)
      | Some (r, y) => Some (x :: r, y)
      end
  end.

(** The first loop: every excluded path made absolute, appended to
    [aexclude]; an [IOError] ends the generator. *)
Fixpoint canonical_excludes (os : OS) (exclude aexclude : list string)
  : io_result (list string) :=
  match exclude with
  | [] => Ok aexclude
  | e :: exclude' =>
      match abspath os e with
      | Ok a => canonical_excludes os exclude' (aexclude ++ [a])
      | IOError n => IOError n
      end
  end.

(** [a in aexclude]. *)
Definition excluded (aexclude : list string) (a : string) : bool :=
  existsb (String.eqb a) aexclude.

(** The test that decides whether a file is yielded. *)
Definition is_markdown (p : string) : bool :=
  (3 <=? String.length p)%nat && (slice_last 3 p =? ".md").

(** What one iteration of the [while] loop does. *)
Inductive walk_event : Type :=
| Yield (p : string) (todo : list string)  (* [yield p], then go on with [todo] *)
| Next (todo : list string)                (* go on with [todo] *)
| Stop (failed : bool).                    (* the generator returns; [failed]
                                              after [perror] *)

Definition walk_step (os : OS) (aexclude todo : list string) : walk_event :=
  match pop todo with
  | None => Stop false
  | Some (todo, p) =>
      match abspath os p with
      | IOError _ => Stop true
      | Ok a =>
          if excluded aexclude a then Next todo
          else if isfile os p then
            if is_markdown p then Yield p todo else Next todo
          else if isdir os p then
            match listdir os p with
            | Ok entries => Next (todo ++ map (path_join p) entries)
            | IOError _ => Stop true
            end
          else Stop true
      end
  end.

(** How a bounded run of the generator ended. *)
Inductive walk_end : Type :=
| Exhausted            (* the work list became empty *)
| Failed               (* [perror] and [return None] *)
| Running.             (* the bound was reached first *)

(** The [while] loop run for at most [fuel] iterations: the paths yielded so
    far, in order, and how the run ended. *)
Fixpoint walk (fuel : nat) (os : OS) (aexclude todo : list string)
  : list string * walk_end :=
  match fuel with
  | O => ([], Running)
  | S fuel' =>
      match walk_step os aexclude todo with
      | Yield p todo' =>
          let (ps, e) := walk fuel' os aexclude todo' in (p :: ps, e)
      | Next todo' => walk fuel' os aexclude todo'
      | Stop failed => ([], if failed then Failed else Exhausted)
      end
  end.

(** The generator drained by a consumer that takes everything. *)
Definition get_markdown_files (fuel : nat) (os : OS) (path : string)
  (exclude : list string) : list string * walk_end :=
  match canonical_excludes os exclude [] with
  | IOError _ => ([], Failed)
  | Ok aexclude => walk fuel os aexclude [path]
  end.

(** ** The driver: [main] *)

(** The first loop of [main], interleaved with the generator as Python runs
    it: each yielded file is analysed before the walk resumes.  [None] when
    [fuel] iterations of the walk were not enough. *)
Fixpoint collect (fuel : nat) (os : OS) (who : string)
  (aexclude todo : list string) (todos : list Todo)
  : option (io_result (list Todo)) :=
  match fuel with
  | O => None
  | S fuel' =>
      match walk_step os aexclude todo with
      | Yield p todo' =>
          match analyze_todos_in_file os p who with
          | IOError e => Some (IOError e)
          | Ok found => collect fuel' os who aexclude todo' (todos ++ found)
          end
      | Next todo' => collect fuel' os who aexclude todo' todos
      | Stop _ => Some (Ok todos)
      end
  end.

(** The line written for one entry. *)
Definition report_line (t : Todo) : string :=
  "- [" ++ (if done t then "x" else " ") ++ "] [" ++ who t ++ "] "
  ++ what t ++ " (" ++ file t ++ ")" ++ nl.

(** The second loop of [main]: the exit code and the chunks written. *)
Fixpoint write_todos (os : OS) (output : string) (skip_done : bool)
  (todos : list Todo) (written : list string) : Z * list string :=
  match todos with
  | [] => (0%Z, written)
  | t :: todos' =>
      if skip_done && done t then write_todos os output skip_done todos' written
      else
        match write_error os output written (report_line t) with
        | Some e => (e, written)
        | None =>
            write_todos os output skip_done todos' (written ++ [report_line t])
        end
  end.

(** The first loop of [main] on a fresh generator: a failure to make an
    excluded path absolute ends the generator before it yields anything. *)
Definition collect_todos (fuel : nat) (os : OS) (path : string)
  (exclude : list string) (who : string) : option (io_result (list Todo)) :=
  match canonical_excludes os exclude [] with
  | IOError _ => Some (Ok [])
  | Ok aexclude => collect fuel os who aexclude [path] []
  end.

(** [main]: the value it returns (the exit code of the script) and the
    chunks it wrote to the output; [None] when [fuel] iterations of the walk
    were not enough. *)
Definition main (fuel : nat) (os : OS) (path output : string)
  (exclude : list string) (who : string) (skip_done : bool)
  : option (Z * list string) :=
  match collect_todos fuel os path exclude who with
  | None => None
  | Some (IOError e) => Some (e, [])
  | Some (Ok todos) =>
      match (if output =? "-" then Ok tt else open_write os output) with
      | IOError e => Some (e, [])
      | Ok _ => Some (write_todos os output skip_done todos [])
      end
  end.

(** The report as text, and its lines without their line feeds. *)
Definition report_text (written : list string) : string :=
  fold_right String.append EmptyString written.

Fixpoint text_lines (text : string) : list string :=
  match text with
  | EmptyString => [EmptyString]
  | String c rest =>
      if Ascii.eqb c LF then EmptyString :: text_lines rest
      else match text_lines rest with
           | [] => [String c EmptyString]
           | l :: ls => String c l :: ls
           end
  end.

(** ** Notions the properties of the walk are stated with *)

(** [q] is an entry of the directory [d], as the walk names it. *)
Definition child_of (os : OS) (d q : string) : Prop :=
  isdir os d = true
  /\ exists (entries : list string) (e : string),
       listdir os d = Ok entries /\ In e entries /\ q = path_join d e.

(** [q] lies beneath the directory [d]: some chain of entries leads from [d]
    down to [q]. *)
Inductive beneath (os : OS) (d : string) : string -> Prop :=
| beneath_child (q : string) : child_of os d q -> beneath os d q
| beneath_deeper (m q : string) :
    beneath os d m -> child_of os m q -> beneath os d q.

(** [q] is reached from [start] by descending only into directories whose
    absolute path is not in [aexclude]. *)
Inductive reached (os : OS) (aexclude : list string) (start : string)
  : string -> Prop :=
| reached_start : reached os aexclude start start
| reached_entry (d a q : string) :
    reached os aexclude start d ->
    abspath os d = Ok a -> ~ In a aexclude ->
    isfile os d = false -> child_of os d q ->
    reached os aexclude start q.

(** A name as [os.listdir] returns it: not empty and without a slash. *)
Definition plain (e : string) : Prop :=
  e <> EmptyString /\ contains "/" e = false.

(** The path the walk builds from [start] by descending through the entries
    [es] in turn. *)
Definition descend (start : string) (es : list string) : string :=
  fold_left path_join es start.

(** What [path_join] puts between a path and a plain entry. *)
Definition separator (a : string) : string :=
  if (a =? EmptyString) || endswith "/" a then EmptyString else "/".

(** The entries [es], each after a slash. *)
Definition slashed (es : list string) : string :=
  fold_right (fun e t => ("/" ++ e ++ t)%string) EmptyString es.

(** A text that is empty or begins with a slash. *)
Definition slash_led (t : string) : Prop :=
  match t with
  | EmptyString => True
  | String c _ => c = "/"%char
  end.

(** The last character of a string. *)
Fixpoint last_char (s : string) : option ascii :=
  match s with
  | EmptyString => None
  | String c EmptyString => Some c
  | String _ s' => last_char s'
  end.

(** The line feed occurs in [s] at most as its last character. *)
Fixpoint lf_only_last (s : string) : bool :=
  match s with
  | EmptyString => true
  | String c EmptyString => true
  | String c s' => negb (Ascii.eqb c LF) && lf_only_last s'
  end.

(** The entries a file contributes: those of [analyze_todos_in_file], none
    when it raises. *)
Definition file_todos (os : OS) (who p : string) : list Todo :=
  match analyze_todos_in_file os p who with
  | Ok found => found
  | IOError _ => []
  end.

(** The entries the second loop of [main] writes when it skips done ones. *)
Definition not_done (t : Todo) : bool := negb (done t).

(** The line of an entry without its line feed. *)
Definition report_body (t : Todo) : string :=
  "- [" ++ (if done t then "x" else " ") ++ "] [" ++ who t ++ "] "
  ++ what t ++ " (" ++ file t ++ ")".

(** [os.path.basename]: the text after the last slash. *)
Fixpoint basename (p : string) : string :=
  match p with
  | EmptyString => EmptyString
  | String c p' =>
      if contains "/" p' then basename p'
      else if Ascii.eqb c "/" then p' else p
  end.

(** A text without whitespace at either end, as [strip] leaves it. *)
Definition trimmed (s : string) : Prop :=
  (forall (c : ascii) (r : string), s = String c r -> isspace c = false)
  /\ (forall c : ascii, last_char s = Some c -> isspace c = false).

(** A text with every line feed written as CR LF. *)
Fixpoint crlf (s : string) : string :=
  match s with
  | EmptyString => EmptyString
  | String c s' =>
      if Ascii.eqb c LF then String CR (String LF (crlf s'))
      else String c (crlf s')
  end.

(** A path the walk yields when it pops it: a file that passes the test on
    its end and whose absolute form is not excluded. *)
Definition yieldable (os : OS) (aexclude : list string) (q : string) : Prop :=
  (exists a : string, abspath os q = Ok a /\ ~ In a aexclude)
  /\ isfile os q = true /\ is_markdown q = true.

(** [p] is built from [start] by descending through plain entries. *)
Definition based (start p : string) : Prop :=
  exists es : list string, Forall plain es /\ p = descend start es.

(** [p'] is [p] or is built from [p] by descending further, both being
    built from [start]. *)
Definition below (start p p' : string) : Prop :=
  exists es es' : list string,
    Forall plain (es ++ es')
    /\ p = descend start es /\ p' = descend start (es ++ es').


(** ** Diagnostics: [_supports_color], [pdebug] and [perror] *)

(** What [_supports_color] reads: [sys.platform], whether [ANSICON] is
    in the environment, whether [sys.stdout] has [isatty], and its answer. *)
Record Terminal : Type := mkTerminal {
  platform : string;
  ansicon : bool;
  has_isatty : bool;
  stdout_isatty : bool
}.

Definition _supports_color (term : Terminal) : bool :=
  let plat := platform term in
  let supported_platform :=
    negb (plat =? "Pocket PC")
    && (negb (plat =? "win32") || ansicon term) in
  let is_a_tty := has_isatty term && stdout_isatty term in
  supported_platform && is_a_tty.

(** The escape character, and the sequences the messages are coloured
    with. *)
Definition ESC : string := String (ascii_of_nat 27) EmptyString.

(** What [pdebug] prints; [None] when it prints nothing. *)
Definition pdebug (DEBUG : bool) (term : Terminal) (text end_ : string)
  (use_colour : option bool) : option string :=
  if negb DEBUG then None
  else
    let use_colour :=
      match use_colour with
      | Some b => b
      | None => _supports_color term
      end in
    let accent := if use_colour then (ESC ++ "[90;1m")%string else EmptyString in
    let clear := if use_colour then (ESC ++ "[0m")%string else EmptyString in
    Some (accent ++ "DEBUG: " ++ text ++ clear ++ end_)%string.

(** What [perror] prints. *)
Definition perror (term : Terminal) (text end_ : string)
  (use_colour : option bool) : string :=
  let use_colour :=
    match use_colour with
    | Some b => b
    | None => _supports_color term
    end in
  let accent := if use_colour then (ESC ++ "[91;1m")%string else EmptyString in
  let bold := if use_colour then (ESC ++ "[1m")%string else EmptyString in
  let clear := if use_colour then (ESC ++ "[0m")%string else EmptyString in
  (accent ++ "ERROR" ++ clear ++ bold ++ ": " ++ text ++ clear ++ end_)%string.

(** ** A file tree as an operating system *)

Inductive node : Type :=
| File (content : string)
| Dir (entries : list string)
| Locked (errno : Z).     (* a directory whose listing is refused *)

Fixpoint lookup (tree : list (string * node)) (p : string) : option node :=
  match tree with
  | [] => None
  | (q, n) :: tree' => if q =? p then Some n else lookup tree' p
  end.

(** Paths are relative to the working directory [cwd]; missing paths give
    ENOENT (2), listing a file ENOTDIR (20), reading a directory EISDIR (21).
    The output can always be opened and written. *)
Definition tree_os (cwd : string) (tree : list (string * node)) : OS :=
  {| abspath := fun p => Ok (path_join cwd p);
     isfile := fun p =>
       match lookup tree p with Some (File _) => true | _ => false end;
     isdir := fun p =>
       match lookup tree p with
       | Some (Dir _) | Some (Locked _) => true
       | _ => false
       end;
     listdir := fun p =>
       match lookup tree p with
       | Some (Dir entries) => Ok entries
       | Some (Locked e) => IOError e
       | Some (File _) => IOError 20%Z
       | None => IOError 2%Z
       end;
     read_text := fun p =>
       match lookup tree p with
       | Some (File content) => Ok content
       | Some _ => IOError 21%Z
       | None => IOError 2%Z
       end;
     open_write := fun _ => Ok tt;
     write_error := fun _ _ _ => None |}.

Definition notes_tree : list (string * node) :=
  [ ("notes", Dir ["a.md"; "b.txt"; "sub"; "old"]);
    ("notes/a.md", File ("- [x] [Sam] Task1" ++ nl ++ "- [ ] [Bob] Other" ++ nl));
    ("notes/b.txt", File ("- [ ] [Sam] Hidden" ++ nl));
    ("notes/sub", Dir ["c.md"]);
    ("notes/sub/c.md", File ("- [ ] [Sam] Task2" ++ nl));
    ("notes/old", Dir ["d.md"]);
    ("notes/old/d.md", File ("- [ ] [Sam] Stale" ++ nl)) ].

Definition notes_os : OS := tree_os "/home/sam" notes_tree.

Definition alice_os : OS :=
  tree_os "/home/alice" [("list.md", File ("- [x] [Alice] Buy milk" ++ nl))].

Definition bracket_os : OS :=
  tree_os "/home/sam" [("n.md", File ("- [ ] [a]b] Task" ++ nl))].

(** A tree with a directory that cannot be listed (EACCES, 13). *)
Definition locked_os : OS :=
  tree_os "/home/sam"
    [ ("notes", Dir ["vault"; "a.md"]);
      ("notes/a.md", File ("- [x] [Sam] Task1" ++ nl));
      ("notes/vault", Locked 13%Z) ].

(** A file whose name holds a line feed. *)
Definition odd_name : string := "log" ++ nl ++ "- [x] fake.md".

Definition odd_os : OS :=
  tree_os "/home/sam" [(odd_name, File ("- [ ] [Sam] Task" ++ nl))].

(** The tree of [notes_os] with files that cannot be read (EACCES, 13),
    and with an output that takes one chunk and then is full (ENOSPC, 28). *)
Definition unreadable_os : OS :=
  {| abspath := abspath notes_os;
     isfile := isfile notes_os;
     isdir := isdir notes_os;
     listdir := listdir notes_os;
     read_text := fun _ => IOError 13%Z;
     open_write := open_write notes_os;
     write_error := write_error notes_os |}.


(** A tree of two files, and a file with CR LF line ends. *)
Definition pair_os : OS :=
  tree_os "/home/sam"
    [ ("t", Dir ["a.md"; "b.md"]);
      ("t/a.md", File ("- [x] [Sam] Task1" ++ nl));
      ("t/b.md", File ("- [ ] [Sam] Task2" ++ nl)) ].

Definition crlf_os : OS :=
  tree_os "/home/sam"
    [("w.md", File ("- [x] [Sam] One" ++ String CR nl ++ "- [ ] [Sam] Two"))].

(** ** The examples of the specification, run *)

Example extract_alice :
  analyze_lines "n.md" "Alice" (readlines ("- [x] [Alice] Buy milk" ++ nl)) []
  = [mkTodo true "Alice" "Buy milk" "n.md"].
Proof. reflexivity. Qed.

Example extract_other_name :
  analyze_lines "n.md" "Alice" (readlines ("- [ ] [Bob] Call Mom" ++ nl)) []
  = [].
Proof. reflexivity. Qed.

Example extract_empty_task :
  analyze_lines "n.md" "Alice" (readlines ("- [ ] [Alice] " ++ nl)) []
  = [mkTodo false "Alice" EmptyString "n.md"].
Proof. reflexivity. Qed.

Example extract_unterminated :
  analyze_lines "n.md" "Alice"
    (readlines ("- [ ] [Alice unterminated" ++ nl)) []
  = [].
Proof. reflexivity. Qed.

Example extract_crlf :
  analyze_todos_in_file crlf_os "w.md" "Sam"
  = Ok [mkTodo true "Sam" "One" "w.md"; mkTodo false "Sam" "Two" "w.md"].
Proof. reflexivity. Qed.

Example discover_notes :
  get_markdown_files 20 notes_os "notes" ["notes/old"]
  = (["notes/sub/c.md"; "notes/a.md"], Exhausted).
Proof. reflexivity. Qed.

Example report_pair :
  main 20 pair_os "t" "-" [] "Sam" false
  = Some (0%Z, [("- [ ] [Sam] Task2 (t/b.md)" ++ nl)%string;
                ("- [x] [Sam] Task1 (t/a.md)" ++ nl)%string]).
Proof. reflexivity. Qed.

(** ** Facts about the string primitives *)

Section StringFacts.

Local Open Scope string_scope.

Lemma append_assoc (a b c : string) : (a ++ b) ++ c = a ++ (b ++ c).
Proof. induction a as [|x a IH]; simpl; [reflexivity | now rewrite IH]. Qed.

Lemma append_empty_r (a : string) : a ++ EmptyString = a.
Proof. induction a as [|x a IH]; simpl; [reflexivity | now rewrite IH]. Qed.

Lemma length_append (a b : string) :
  String.length (a ++ b) = String.length a + String.length b.
Proof. induction a as [|x a IH]; simpl; [reflexivity | now rewrite IH]. Qed.

Lemma slice_to_append (a b : string) : slice_to (String.length a) (a ++ b) = a.
Proof. induction a as [|x a IH]; simpl; [now destruct b | now rewrite IH]. Qed.

Lemma slice_from_append (a b : string) :
  slice_from (String.length a) (a ++ b) = b.
Proof. induction a as [|x a IH]; simpl; [now destruct b | exact IH]. Qed.

Lemma slice_to_from (n : nat) (s : string) : slice_to n s ++ slice_from n s = s.
Proof.
  revert s; induction n as [|n IH]; intros [|c s]; simpl; try reflexivity.
  now rewrite IH.
Qed.

Lemma contains_append (c : ascii) (a b : string) :
  contains c (a ++ b) = contains c a || contains c b.
Proof.
  induction a as [|x a IH]; simpl; [reflexivity|].
  now rewrite IH, orb_assoc.
Qed.

Lemma find_none (c : ascii) (s : string) :
  find c s = None <-> contains c s = false.
Proof.
  induction s as [|d s IH]; simpl; [tauto|].
  destruct (Ascii.eqb d c); simpl; [split; discriminate|].
  destruct (find c s); [split; [discriminate | intros H; apply IH in H; discriminate]|].
  split; intros _; [now apply IH | reflexivity].
Qed.

(** [find] returns the first position: the text before it is free of the
    character, and the character stands at it. *)
Lemma find_some (c : ascii) (s : string) (i : nat) :
  find c s = Some i ->
  s = slice_to i s ++ String c (slice_from (i + 1) s)
  /\ contains c (slice_to i s) = false.
Proof.
  revert i; induction s as [|d s IH]; simpl; intros i H; [discriminate|].
  destruct (Ascii.eqb_spec d c) as [->|Hd].
  - injection H as <-. simpl. now destruct s.
  - destruct (find c s) as [j|] eqn:E; [|discriminate].
    injection H as <-. destruct (IH j eq_refl) as [Hs Hc]. simpl.
    split; [now rewrite <- Hs|].
    rewrite Hc. apply Ascii.eqb_neq in Hd. now rewrite Hd.
Qed.

Lemma find_append (c : ascii) (a b : string) :
  contains c a = false -> find c (a ++ String c b) = Some (String.length a).
Proof.
  induction a as [|x a IH]; simpl; intros H.
  - now rewrite Ascii.eqb_refl.
  - apply orb_false_iff in H as [Hx Ha]. now rewrite Hx, (IH Ha).
Qed.

Lemma prefix_slice (p s : string) :
  String.prefix p s
  = (String.length p <=? String.length s)%nat
    && (slice_to (String.length p) s =? p).
Proof.
  revert s; induction p as [|x p IH]; intros [|c s]; simpl; try reflexivity.
  rewrite IH. destruct (ascii_dec x c) as [->|Hn].
  - now rewrite Ascii.eqb_refl.
  - assert (Ascii.eqb c x = false) as -> by (apply Ascii.eqb_neq; congruence).
    simpl. now rewrite andb_false_r.
Qed.

End StringFacts.

(** ** The TODO extractor *)

Section Extractor.

Local Open Scope string_scope.

Variables path target : string.

Lemma find_some_lt (c : ascii) (s : string) (i : nat) :
  find c s = Some i -> i < String.length s.
Proof.
  revert i; induction s as [|d s IH]; simpl; intros i H; [discriminate|].
  destruct (Ascii.eqb d c); [injection H as <-; lia|].
  destruct (find c s) as [j|]; [|discriminate].
  injection H as <-. specialize (IH j eq_refl). lia.
Qed.

(** What the loop body extracts from a line that has the prefix. *)
Lemma line_fields_prefixed (rest : string) :
  line_fields ("- [" ++ rest) =
  let '(d, l) :=
    if startswith "x] [" rest then (true, slice_from 4 rest)
    else if startswith " ] [" rest then (false, slice_from 4 rest)
    else (false, rest) in
  match find "]" l with
  | Some pos => Some (d, slice_to pos l, slice_from (pos + 1) l)
  | None => None
  end.
Proof.
  unfold line_fields, startswith. rewrite !prefix_slice. reflexivity.
Qed.

(** A line whose prefix is followed by [name], a closing bracket and
    [tail], where no marker is consumed. *)
Lemma line_todo_unmarked (rest name tail : string) :
  startswith "x] [" rest = false ->
  startswith " ] [" rest = false ->
  rest = name ++ "]" ++ tail ->
  contains "]" name = false ->
  line_todo path target ("- [" ++ rest)
  = if name =? target then Some (mkTodo false target (strip tail) path)
    else None.
Proof.
  intros Hx Hb -> Hn. unfold line_todo.
  rewrite line_fields_prefixed, Hx, Hb.
  change ("]" ++ tail) with (String "]" tail).
  rewrite (find_append _ _ _ Hn), slice_to_append.
  replace (String.length name + 1) with (String.length (name ++ "]"))
    by (rewrite length_append; reflexivity).
  rewrite <- (slice_from_append (name ++ "]") tail) at 2.
  rewrite append_assoc. simpl append at 2.
  destruct (String.eqb_spec name target) as [->|]; reflexivity.
Qed.

Lemma line_todo_unterminated (rest : string) :
  startswith "x] [" rest = false ->
  startswith " ] [" rest = false ->
  contains "]" rest = false ->
  line_todo path target ("- [" ++ rest) = None.
Proof.
  intros Hx Hb Hn. unfold line_todo.
  rewrite line_fields_prefixed, Hx, Hb.
  apply find_none in Hn. now rewrite Hn.
Qed.

(** A line shorter than the prefix is left at the first test. *)
Lemma line_fields_short (line : string) :
  String.length line < 3 -> line_fields line = None.
Proof.
  intros H. unfold line_fields.
  destruct (Nat.leb_spec 3 (String.length line)); [lia | reflexivity].
Qed.

(** A remainder shorter than a marker starts with neither marker. *)
Lemma short_no_marker (marker rest : string) :
  String.length rest < String.length marker -> startswith marker rest = false.
Proof.
  intros H. unfold startswith. rewrite prefix_slice.
  destruct (Nat.leb_spec (String.length marker) (String.length rest));
    [lia | reflexivity].
Qed.

(** The name taken from a line never holds a closing bracket. *)
Lemma line_fields_name (line : string) (d : bool) (name rest : string) :
  line_fields line = Some (d, name, rest) -> contains "]" name = false.
Proof.
  unfold line_fields.
  destruct (_ && _); [|discriminate].
  destruct (if _ && _ then _ else _) as [d' l].
  destruct (find "]" l) as [pos|] eqn:E; [|discriminate].
  intros [= <- <- <-]. now apply find_some in E.
Qed.

(** A stored record carries the target as its name and the path of the file. *)
Lemma line_todo_some (line : string) (t : Todo) :
  line_todo path target line = Some t ->
  who t = target /\ file t = path
  /\ exists name rest,
       line_fields line = Some (done t, name, rest)
       /\ name = target /\ what t = strip rest.
Proof.
  unfold line_todo.
  destruct (line_fields line) as [[[d name] rest]|]; [|discriminate].
  destruct (String.eqb_spec name target) as [->|]; [|discriminate].
  intros [= <-]. simpl. repeat split. now exists target, rest.
Qed.

Lemma line_todo_other_name (line : string) (d : bool) (name rest : string) :
  line_fields line = Some (d, name, rest) -> name <> target ->
  line_todo path target line = None.
Proof.
  intros H Hn. unfold line_todo. rewrite H.
  apply String.eqb_neq in Hn. now rewrite Hn.
Qed.

(** The loop appends, line after line, the record of each line. *)
Lemma analyze_lines_flat_map (lines : list string) (todos : list Todo) :
  analyze_lines path target lines todos
  = (todos ++ flat_map (line_todos path target) lines)%list.
Proof.
  unfold analyze_lines. revert todos.
  induction lines as [|l lines IH]; intros todos; simpl.
  - now rewrite app_nil_r.
  - rewrite IH. unfold analyze_line, line_todos.
    destruct (line_todo path target l); [|reflexivity].
    now rewrite <- app_assoc.
Qed.

Lemma analyze_lines_In (lines : list string) (t : Todo) :
  In t (analyze_lines path target lines []) ->
  exists line, In line lines /\ line_todo path target line = Some t.
Proof.
  rewrite analyze_lines_flat_map. simpl. rewrite in_flat_map.
  intros (line & Hl & Ht). exists line. split; [exact Hl|].
  unfold line_todos in Ht. destruct (line_todo path target line) as [t'|].
  - destruct Ht as [->|[]]. reflexivity.
  - destruct Ht.
Qed.

(** A target that holds a closing bracket matches no line. *)
Lemma line_todo_bracket_target (line : string) :
  contains "]" target = true -> line_todo path target line = None.
Proof.
  intros Ht. destruct (line_todo path target line) as [t|] eqn:E; [|reflexivity].
  apply line_todo_some in E as (_ & _ & name & rest & Hf & -> & _).
  apply line_fields_name in Hf. congruence.
Qed.

(** The checked parsing never meets an index beyond the end, and parses as
    [line_fields] does. *)
Lemma checked_name_ok (d : bool) (line : string) :
  checked_name d line =
  Some match find "]" line with
       | Some pos => Some (d, slice_to pos line, slice_from (pos + 1) line)
       | None => None
       end.
Proof.
  unfold checked_name, checked_slice_to, checked_slice_from.
  destruct (find "]" line) as [pos|] eqn:E; [|reflexivity].
  apply find_some_lt in E.
  destruct (Nat.leb_spec pos (String.length line)); [|lia].
  destruct (Nat.leb_spec (pos + 1) (String.length line)); [|lia].
  reflexivity.
Qed.

Lemma checked_starts_ok (n : nat) (p s : string) :
  checked_starts n p s
  = Some ((n <=? String.length s)%nat && (slice_to n s =? p)).
Proof.
  unfold checked_starts, checked_slice_to.
  destruct (n <=? String.length s)%nat; reflexivity.
Qed.

Lemma checked_line_fields_ok (line : string) :
  checked_line_fields line = Some (line_fields line).
Proof.
  unfold checked_line_fields, line_fields, checked_skip, checked_slice_from.
  rewrite checked_starts_ok.
  destruct (Nat.leb_spec 3 (String.length line)) as [H3|H3]; [|reflexivity].
  cbn [andb]. destruct (slice_to 3 line =? "- ["); [|reflexivity].
  rewrite !checked_starts_ok.
  destruct (Nat.leb_spec 4 (String.length (slice_from 3 line))) as [H4|H4];
    cbn [andb]; [|now rewrite checked_name_ok].
  destruct (slice_to 4 (slice_from 3 line) =? "x] [");
    [now rewrite checked_name_ok|].
  destruct (slice_to 4 (slice_from 3 line) =? " ] [");
    now rewrite checked_name_ok.
Qed.

End Extractor.

(** *** Lines with the prefix and no checkbox marker *)

(** C1, as stated, fails: the line [- [Alice] Buy milk] starts with the
    prefix, is followed by neither marker, and still yields a record for the
    target Alice. *)
Lemma C1_unmarked_line_is_stored :
  startswith "x] [" ("Alice] Buy milk" ++ nl) = false
  /\ startswith " ] [" ("Alice] Buy milk" ++ nl) = false
  /\ line_todo "n.md" "Alice" ("- [" ++ "Alice] Buy milk" ++ nl)
     = Some (mkTodo false "Alice" "Buy milk" "n.md")
  /\ analyze_todos_in_file
       (tree_os "/home" [("n.md", File ("- [Alice] Buy milk" ++ nl))])
       "n.md" "Alice"
     = Ok [mkTodo false "Alice" "Buy milk" "n.md"].
Proof. repeat split. Qed.

(** C1 (amended): a line that starts with the prefix and goes on with
    neither marker is parsed with no marker consumed.  It yields no record
    when the text after the prefix has no closing bracket, or when the text
    before the first closing bracket differs from the target; when that text
    is the target, it yields one record, not done, whose description is the
    stripped text after the bracket. *)
Theorem C1_unmarked_line (path target rest : string) :
  startswith "x] [" rest = false ->
  startswith " ] [" rest = false ->
  (contains "]" rest = false ->
     line_todo path target ("- [" ++ rest) = None)
  /\ (forall name tail : string,
        rest = (name ++ "]" ++ tail)%string -> contains "]" name = false ->
        (name <> target -> line_todo path target ("- [" ++ rest) = None)
        /\ (name = target ->
            line_todo path target ("- [" ++ rest)
            = Some (mkTodo false target (strip tail) path))).
Proof.
  intros Hx Hb. split.
  - now apply line_todo_unterminated.
  - intros name tail Hr Hn.
    rewrite (line_todo_unmarked path target rest name tail Hx Hb Hr Hn).
    split; intros H.
    + apply String.eqb_neq in H. now rewrite H.
    + rewrite H, String.eqb_refl. reflexivity.
Qed.

Lemma C1_unmarked_line_witness :
  line_todo "n.md" "Bob" ("- [" ++ "Alice] Buy milk") = None
  /\ line_todo "n.md" "Alice" ("- [" ++ "Alice] Buy milk")
     = Some (mkTodo false "Alice" "Buy milk" "n.md")
  /\ line_todo "n.md" "Alice" ("- [" ++ "link(a.md)") = None.
Proof.
  destruct (C1_unmarked_line "n.md" "Bob" "Alice] Buy milk" eq_refl eq_refl)
    as [_ HB].
  destruct (C1_unmarked_line "n.md" "Alice" "Alice] Buy milk" eq_refl eq_refl)
    as [_ HA].
  destruct (C1_unmarked_line "n.md" "Alice" "link(a.md)" eq_refl eq_refl)
    as [HN _].
  split; [|split].
  - apply (HB "Alice" " Buy milk" eq_refl eq_refl). discriminate.
  - apply (HA "Alice" " Buy milk" eq_refl eq_refl). reflexivity.
  - apply HN. reflexivity.
Defined.

(** *** The example line of the specification *)

(** C5: a file that is the one line [- [x] [Alice] Buy milk] gives, for the
    target Alice, exactly one record (done, Alice, Buy milk, the path of the
    file), and for every other target the empty list. *)
Theorem C5_alice_buy_milk (os : OS) (path : string) :
  read_text os path = Ok ("- [x] [Alice] Buy milk" ++ nl)%string ->
  analyze_todos_in_file os path "Alice"
  = Ok [mkTodo true "Alice" "Buy milk" path]
  /\ (forall target : string, target <> "Alice" ->
        analyze_todos_in_file os path target = Ok []).
Proof.
  intros H. unfold analyze_todos_in_file. rewrite H. split; [reflexivity|].
  intros target Ht. f_equal.
  replace (readlines (universal_newlines ("- [x] [Alice] Buy milk" ++ nl)))
    with [("- [x] [Alice] Buy milk" ++ nl)%string] by reflexivity.
  rewrite analyze_lines_flat_map. simpl flat_map. unfold line_todos.
  rewrite (line_todo_other_name path target _ true "Alice"
             (" Buy milk" ++ nl)%string); [reflexivity | reflexivity |].
  congruence.
Qed.

Lemma C5_alice_buy_milk_witness :
  analyze_todos_in_file alice_os "list.md" "Alice"
  = Ok [mkTodo true "Alice" "Buy milk" "list.md"]
  /\ analyze_todos_in_file alice_os "list.md" "Bob" = Ok [].
Proof.
  destruct (C5_alice_buy_milk alice_os "list.md" eq_refl) as [HA HB].
  split; [exact HA | apply HB; discriminate].
Defined.

(** *** Lines without a closing bracket *)

(** C6: when a marker was consumed and the text after it has no closing
    bracket, the line yields no record, and the result of the whole loop is
    the one obtained without that line. *)
Theorem C6_unterminated_line (path target marker rest : string) :
  marker = "x] [" \/ marker = " ] [" ->
  contains "]" rest = false ->
  line_todo path target ("- [" ++ marker ++ rest) = None
  /\ (forall (before after : list string) (todos : list Todo),
        analyze_lines path target
          (before ++ ("- [" ++ marker ++ rest)%string :: after) todos
        = analyze_lines path target (before ++ after) todos).
Proof.
  intros Hm Hr.
  assert (line_todo path target ("- [" ++ marker ++ rest) = None) as Hnone.
  { unfold line_todo. rewrite line_fields_prefixed.
    apply find_none in Hr. unfold startswith. rewrite !prefix_slice.
    destruct Hm as [-> | ->]; simpl; now rewrite Hr. }
  split; [exact Hnone|].
  intros before after todos.
  assert (line_todos path target ("- [" ++ marker ++ rest) = []) as Hnil
    by (unfold line_todos; now rewrite Hnone).
  rewrite !analyze_lines_flat_map, !flat_map_app. cbn [flat_map].
  now rewrite Hnil.
Qed.

Lemma C6_unterminated_line_witness :
  line_todo "n.md" "Alice" ("- [" ++ " ] [" ++ "Alice unterminated" ++ nl) = None
  /\ analyze_lines "n.md" "Alice"
       ["- [x] [Alice] One"; "- [ ] [Alice unterminated" ++ nl; "- [ ] [Alice] Two"]%string
       []
     = analyze_lines "n.md" "Alice" ["- [x] [Alice] One"; "- [ ] [Alice] Two"] [].
Proof.
  destruct (C6_unterminated_line "n.md" "Alice" " ] [" ("Alice unterminated" ++ nl)
              (or_intror eq_refl) eq_refl) as [H1 H2].
  split; [exact H1|].
  exact (H2 ["- [x] [Alice] One"] ["- [ ] [Alice] Two"] []).
Defined.

(** *** The name of a stored record *)

(** C8: every record returned for a file carries the target, character for
    character, as its [who]; a line whose name differs from the target is
    never stored. *)
Theorem C8_who_is_target (os : OS) (path target : string) (todos : list Todo) :
  analyze_todos_in_file os path target = Ok todos ->
  Forall (fun t => who t = target) todos
  /\ (forall (line : string) (d : bool) (name rest : string),
        line_fields line = Some (d, name, rest) -> name <> target ->
        line_todo path target line = None).
Proof.
  unfold analyze_todos_in_file.
  destruct (read_text os path) as [text|e]; [|discriminate].
  intros [= <-]. split.
  - apply Forall_forall. intros t Ht.
    apply analyze_lines_In in Ht as (line & _ & Ht).
    now apply line_todo_some in Ht.
  - intros line d name rest. apply line_todo_other_name.
Qed.

Lemma C8_who_is_target_witness :
  Forall (fun t => who t = "Sam") [mkTodo true "Sam" "Task1" "notes/a.md"]
  /\ line_todo "notes/a.md" "Sam" "- [ ] [Bob] Other" = None.
Proof.
  destruct (C8_who_is_target notes_os "notes/a.md" "Sam"
              [mkTodo true "Sam" "Task1" "notes/a.md"] eq_refl) as [H1 H2].
  split; [exact H1|].
  apply (H2 "- [ ] [Bob] Other" false "Bob" " Other" eq_refl). discriminate.
Defined.

(** *** Short lines *)

(** C9, as stated, fails at the checkbox stage: after the prefix of the line
    [- [A]] only two characters remain, fewer than a marker has, and the
    line is not skipped but stored for the target A. *)
Lemma C9_short_remainder_is_stored :
  (String.length "A]" <? 4)%nat = true
  /\ line_todo "n.md" "A" ("- [" ++ "A]")
     = Some (mkTodo false "A" EmptyString "n.md").
Proof. split; reflexivity. Qed.

(** C9 (amended): the extractor is a total function of the line.  A line of
    fewer than 3 characters is skipped.  When fewer than 4 characters follow
    the prefix, no marker is consumed and the line is parsed as any line
    without a marker: skipped when it has no closing bracket or the text
    before the first one differs from the target, stored as not done
    otherwise.  No slice is taken beyond the end of a string: the parsing
    with checked slices never fails and agrees with the one above. *)
Theorem C9_short_lines (path target : string) :
  (forall line : string,
     String.length line < 3 -> line_todo path target line = None)
  /\ (forall rest : string, String.length rest < 4 ->
        (contains "]" rest = false ->
           line_todo path target ("- [" ++ rest) = None)
        /\ (forall name tail : string,
              rest = (name ++ "]" ++ tail)%string ->
              contains "]" name = false ->
              (name <> target ->
                 line_todo path target ("- [" ++ rest) = None)
              /\ (name = target ->
                  line_todo path target ("- [" ++ rest)
                  = Some (mkTodo false target (strip tail) path))))
  /\ (forall line : string,
        checked_line_fields line = Some (line_fields line)).
Proof.
  split; [|split].
  - intros line H. unfold line_todo. now rewrite line_fields_short.
  - intros rest H.
    assert (startswith "x] [" rest = false) as Hx
      by (apply short_no_marker; exact H).
    assert (startswith " ] [" rest = false) as Hb
      by (apply short_no_marker; exact H).
    split; [now apply line_todo_unterminated|].
    intros name tail Hr Hn.
    rewrite (line_todo_unmarked path target rest name tail Hx Hb Hr Hn).
    split; intros Ht.
    + apply String.eqb_neq in Ht. now rewrite Ht.
    + rewrite Ht, String.eqb_refl. reflexivity.
  - apply checked_line_fields_ok.
Qed.

Lemma C9_short_lines_witness :
  line_todo "n.md" "A" "- " = None
  /\ line_todo "n.md" "A" ("- [" ++ "B]") = None
  /\ line_todo "n.md" "A" ("- [" ++ "A]")
     = Some (mkTodo false "A" EmptyString "n.md")
  /\ checked_line_fields "- [x" = Some None.
Proof.
  destruct (C9_short_lines "n.md" "A") as (H1 & H2 & H3).
  destruct (H2 "B]" ltac:(simpl; lia)) as [_ HB].
  destruct (H2 "A]" ltac:(simpl; lia)) as [_ HA].
  split; [|split; [|split]].
  - apply H1. simpl. lia.
  - apply (HB "B" EmptyString eq_refl eq_refl). discriminate.
  - apply (HA "A" EmptyString eq_refl eq_refl). reflexivity.
  - exact (H3 "- [x").
Defined.

(** *** A target with a closing bracket *)

(** C10: the name parsed from a line is the text before the first closing
    bracket, so it holds none; a target that holds one therefore equals no
    name, and the extractor returns the empty list for every readable
    file. *)
Theorem C10_bracket_in_target (os : OS) (path target text : string) :
  contains "]" target = true ->
  read_text os path = Ok text ->
  analyze_todos_in_file os path target = Ok []
  /\ (forall (line : string) (d : bool) (name rest : string),
        line_fields line = Some (d, name, rest) -> contains "]" name = false).
Proof.
  intros Ht Hr. split.
  - unfold analyze_todos_in_file. rewrite Hr. f_equal.
    rewrite analyze_lines_flat_map. simpl.
    induction (readlines (universal_newlines text)) as [|l ls IH];
      [reflexivity|].
    simpl. unfold line_todos at 1.
    now rewrite (line_todo_bracket_target path target l Ht).
  - intros line d name rest. apply line_fields_name.
Qed.

Lemma C10_bracket_in_target_witness :
  analyze_todos_in_file bracket_os "n.md" "a]b" = Ok []
  /\ contains "]" "a" = false.
Proof.
  destruct (C10_bracket_in_target bracket_os "n.md" "a]b"
              ("- [ ] [a]b] Task" ++ nl) eq_refl eq_refl) as [H1 H2].
  split; [exact H1|].
  exact (H2 ("- [ ] [a]b] Task" ++ nl)%string false "a" ("b] Task" ++ nl)%string
           eq_refl).
Defined.

(** ** The file discoverer *)

Section Discoverer.

Local Open Scope string_scope.

Variable os : OS.
Variable aexclude : list string.

Lemma pop_snoc {A : Type} (l : list A) (x : A) : pop (l ++ [x]) = Some (l, x).
Proof.
  induction l as [|y l IH]; simpl; [reflexivity | now rewrite IH].
Qed.

Lemma pop_some {A : Type} (l r : list A) (x : A) :
  pop l = Some (r, x) -> l = (r ++ [x])%list.
Proof.
  revert r; induction l as [|y l IH]; simpl; intros r H; [discriminate|].
  destruct (pop l) as [[r' z]|] eqn:E.
  - injection H as <- <-. simpl. f_equal. now apply IH.
  - injection H as <- <-. destruct l as [|w l]; [reflexivity|].
    simpl in E. destruct (pop l) as [[? ?]|]; discriminate.
Qed.

Lemma excluded_In (a : string) : excluded aexclude a = true <-> In a aexclude.
Proof.
  unfold excluded. rewrite existsb_exists. split.
  - intros (x & Hx & E). apply String.eqb_eq in E. now subst.
  - intros H. exists a. split; [exact H | apply String.eqb_refl].
Qed.

Lemma excluded_not_In (a : string) :
  excluded aexclude a = false <-> ~ In a aexclude.
Proof.
  rewrite <- excluded_In. destruct (excluded aexclude a); split; congruence.
Qed.

(** What a yield tells about the path and the work list. *)
Lemma walk_step_yield (todo todo' : list string) (p : string) :
  walk_step os aexclude todo = Yield p todo' ->
  todo = (todo' ++ [p])%list
  /\ (exists a, abspath os p = Ok a /\ ~ In a aexclude)
  /\ isfile os p = true /\ is_markdown p = true.
Proof.
  unfold walk_step.
  destruct (pop todo) as [[r x]|] eqn:Ep; [|discriminate].
  destruct (abspath os x) as [a|] eqn:Ea; [|discriminate].
  destruct (excluded aexclude a) eqn:Ex; [discriminate|].
  destruct (isfile os x) eqn:Ef.
  - destruct (is_markdown x) eqn:Em; [|discriminate].
    intros [= <- <-]. apply pop_some in Ep. apply excluded_not_In in Ex.
    repeat split; try assumption. now exists a.
  - destruct (isdir os x); [|discriminate].
    destruct (listdir os x); discriminate.
Qed.

(** What an iteration without a yield does to the work list: it drops the
    last path, and appends its entries when it is a directory that is not
    excluded. *)
Lemma walk_step_next (todo todo' : list string) :
  walk_step os aexclude todo = Next todo' ->
  exists (r : list string) (p : string),
    todo = (r ++ [p])%list
    /\ (todo' = r
        \/ exists (a : string) (entries : list string),
             abspath os p = Ok a /\ ~ In a aexclude
             /\ isfile os p = false /\ isdir os p = true
             /\ listdir os p = Ok entries
             /\ todo' = (r ++ map (path_join p) entries)%list).
Proof.
  unfold walk_step.
  destruct (pop todo) as [[r x]|] eqn:Ep; [|discriminate].
  apply pop_some in Ep. intros H. exists r, x. split; [exact Ep|].
  destruct (abspath os x) as [a|] eqn:Ea; [|discriminate].
  destruct (excluded aexclude a) eqn:Ex; [injection H as <-; now left|].
  destruct (isfile os x) eqn:Ef.
  - destruct (is_markdown x); [discriminate | injection H as <-; now left].
  - destruct (isdir os x) eqn:Ed; [|discriminate].
    destruct (listdir os x) as [entries|] eqn:El; [|discriminate].
    injection H as <-. right. exists a, entries.
    apply excluded_not_In in Ex. repeat split; assumption.
Qed.

(** A path whose absolute form is excluded is dropped from the work list:
    nothing is yielded and nothing is pushed. *)
Lemma walk_step_excluded (todo : list string) (p a : string) :
  abspath os p = Ok a -> In a aexclude ->
  walk_step os aexclude (todo ++ [p]) = Next todo.
Proof.
  intros Ha Hin. unfold walk_step. rewrite pop_snoc, Ha.
  apply excluded_In in Hin. now rewrite Hin.
Qed.

(** The bound only cuts a run short: a run that ended within the bound is
    the same under a larger one. *)
Lemma walk_unfold (fuel : nat) (todo : list string) :
  walk (S fuel) os aexclude todo
  = match walk_step os aexclude todo with
    | Yield p todo' =>
        let (ps, e) := walk fuel os aexclude todo' in (p :: ps, e)
    | Next todo' => walk fuel os aexclude todo'
    | Stop failed => ([], if failed then Failed else Exhausted)
    end.
Proof. reflexivity. Qed.

Lemma walk_more_fuel (fuel : nat) (todo : list string) :
  snd (walk fuel os aexclude todo) <> Running ->
  walk (S fuel) os aexclude todo = walk fuel os aexclude todo.
Proof.
  revert todo; induction fuel as [|fuel IH]; intros todo H; [now elim H|].
  rewrite (walk_unfold (S fuel)). rewrite walk_unfold in H |- *.
  destruct (walk_step os aexclude todo) as [p todo'|todo'|failed].
  - rewrite IH; [reflexivity|].
    now destruct (walk fuel os aexclude todo').
  - now apply IH.
  - reflexivity.
Qed.

(** An invariant of the entries of the work list carries over to every
    yielded path. *)
Section Invariant.

Variable Inv : string -> Prop.

Hypothesis Inv_entry :
  forall (p a : string) (entries : list string) (e : string),
    Inv p -> abspath os p = Ok a -> ~ In a aexclude ->
    isfile os p = false -> isdir os p = true ->
    listdir os p = Ok entries -> In e entries ->
    Inv (path_join p e).

Lemma walk_invariant (fuel : nat) (todo : list string) (q : string) :
  Forall Inv todo ->
  In q (fst (walk fuel os aexclude todo)) ->
  Inv q
  /\ (exists a, abspath os q = Ok a /\ ~ In a aexclude)
  /\ isfile os q = true /\ is_markdown q = true.
Proof.
  revert todo; induction fuel as [|fuel IH]; intros todo Hall; simpl;
    [intros []|].
  destruct (walk_step os aexclude todo) as [p todo'|todo'|failed] eqn:Es.
  - apply walk_step_yield in Es as (-> & Ha & Hf & Hm).
    apply Forall_app in Hall as [Hall Hp].
    destruct (walk fuel os aexclude todo') as [ps e] eqn:Ew. simpl.
    intros [<-|Hq].
    + split; [now inversion Hp | auto].
    + apply (IH todo' Hall). now rewrite Ew.
  - apply walk_step_next in Es as (r & p & -> & Hn).
    apply Forall_app in Hall as [Hall Hp]. apply IH.
    destruct Hn as [->|(a & entries & Ha & Hx & Hf & Hd & Hl & ->)];
      [exact Hall|].
    apply Forall_app. split; [exact Hall|].
    apply Forall_forall. intros x Hx'. apply in_map_iff in Hx' as (e & <- & He).
    inversion Hp; subst. now apply (Inv_entry p a entries e).
  - intros [].
Qed.

End Invariant.

Lemma walk_reached (fuel : nat) (start q : string) :
  In q (fst (walk fuel os aexclude [start])) ->
  reached os aexclude start q
  /\ (exists a, abspath os q = Ok a /\ ~ In a aexclude)
  /\ isfile os q = true /\ is_markdown q = true.
Proof.
  apply walk_invariant.
  - intros p a entries e Hp Ha Hx Hf Hd Hl He.
    apply (reached_entry os aexclude start p a); try assumption.
    split; [exact Hd|]. now exists entries, e.
  - constructor; [apply reached_start | constructor].
Qed.

End Discoverer.

(** The first loop of the generator makes every excluded path absolute, in
    order. *)
Lemma canonical_excludes_spec (os : OS) (exclude acc aexclude : list string) :
  canonical_excludes os exclude acc = Ok aexclude ->
  exists canon : list string,
    aexclude = (acc ++ canon)%list
    /\ Forall2 (fun e a => abspath os e = Ok a) exclude canon.
Proof.
  revert acc; induction exclude as [|e exclude IH]; simpl; intros acc H.
  - injection H as <-. exists []. now rewrite app_nil_r.
  - destruct (abspath os e) as [a|] eqn:Ea; [|discriminate].
    destruct (IH _ H) as (canon & -> & Hc). exists (a :: canon).
    split; [now rewrite <- app_assoc | now constructor].
Qed.

(** A path that ends in [.md] has a name that ends in [.md]. *)
Lemma is_markdown_stem (p : string) :
  is_markdown p = true -> exists stem : string, p = (stem ++ ".md")%string.
Proof.
  unfold is_markdown, slice_last. intros H.
  apply andb_true_iff in H as [_ H]. apply String.eqb_eq in H.
  exists (slice_to (String.length p - 3) p).
  rewrite <- H at 1. now rewrite slice_to_from.
Qed.

Lemma basename_stem (stem : string) :
  exists stem' : string, basename (stem ++ ".md") = (stem' ++ ".md")%string.
Proof.
  induction stem as [|c stem IH]; [now exists EmptyString|].
  simpl. rewrite contains_append. simpl contains at 2. rewrite orb_false_r.
  destruct (contains "/" stem); [exact IH|].
  destruct (Ascii.eqb c "/"); [now exists stem | now exists (String c stem)].
Qed.

(** *** Paths built by the walk *)

Section Paths.

Local Open Scope string_scope.

Lemma append_inj_l (a x y : string) : a ++ x = a ++ y -> x = y.
Proof.
  induction a as [|c a IH]; simpl; intros H; [exact H|].
  injection H as H. now apply IH.
Qed.

Lemma last_char_append (a e : string) :
  e <> EmptyString -> last_char (a ++ e) = last_char e.
Proof.
  intros He. induction a as [|c a IH]; [reflexivity|].
  simpl. destruct (a ++ e) eqn:E; [|exact IH].
  destruct a; simpl in E; [congruence | discriminate].
Qed.

Lemma last_char_contains (s : string) (c : ascii) :
  last_char s = Some c -> contains c s = true.
Proof.
  induction s as [|d s IH]; [discriminate|].
  simpl. destruct s as [|d' s].
  - intros [= ->]. now rewrite Ascii.eqb_refl.
  - intros H. rewrite (IH H). apply orb_true_r.
Qed.

Lemma endswith_last_char (s : string) :
  endswith "/" s = true -> last_char s = Some "/"%char.
Proof.
  unfold endswith. induction s as [|c s IH]; [discriminate|].
  intros H. apply andb_true_iff in H as [_ H].
  cbn [String.length] in H. rewrite Nat.sub_succ, Nat.sub_0_r in H.
  destruct s as [|d s].
  - apply String.eqb_eq in H. injection H as ->. reflexivity.
  - change (last_char (String d s) = Some "/"%char). apply IH.
    cbn [String.length]. rewrite Nat.sub_succ, Nat.sub_0_r.
    cbn [String.length slice_from] in H. now rewrite H.
Qed.

Lemma plain_no_slash_start (e : string) : plain e -> startswith "/" e = false.
Proof.
  intros [He Hs]. destruct e as [|c e]; [congruence|].
  simpl in Hs. apply orb_false_iff in Hs as [Hc _].
  unfold startswith. rewrite prefix_slice. simpl. now rewrite Hc.
Qed.

Lemma path_join_plain (a e : string) :
  plain e -> path_join a e = a ++ separator a ++ e.
Proof.
  intros He. unfold path_join, separator.
  rewrite (plain_no_slash_start e He).
  destruct ((a =? EmptyString) || endswith "/" a); reflexivity.
Qed.

(** A path that a plain entry was joined to is not empty and does not end
    in a slash: the next entry is joined to it with a slash. *)
Lemma separator_joined (a e : string) :
  plain e -> separator (path_join a e) = "/".
Proof.
  intros He. rewrite (path_join_plain a e He). destruct He as [Hne Hs].
  remember (a ++ separator a) as b eqn:Hb.
  rewrite <- append_assoc, <- Hb. unfold separator.
  assert (b ++ e <> EmptyString) as Hn.
  { intros H. apply (f_equal String.length) in H.
    rewrite length_append in H. destruct e; [congruence | simpl in H; lia]. }
  apply String.eqb_neq in Hn. rewrite Hn. simpl.
  destruct (endswith "/" (b ++ e)) eqn:E; [|reflexivity].
  apply endswith_last_char in E. rewrite (last_char_append b e Hne) in E.
  apply last_char_contains in E. congruence.
Qed.

Lemma descend_slashed (a : string) (es : list string) :
  separator a = "/" -> Forall plain es -> descend a es = a ++ slashed es.
Proof.
  intros Ha Hes. revert a Ha.
  induction Hes as [|e es He _ IH]; intros a Ha.
  - simpl. now rewrite append_empty_r.
  - change (descend a (e :: es)) with (descend (path_join a e) es).
    rewrite IH by now apply separator_joined.
    rewrite (path_join_plain a e He), Ha.
    change (slashed (e :: es)) with ("/" ++ e ++ slashed es).
    now rewrite !append_assoc.
Qed.

Lemma descend_cons (start e : string) (es : list string) :
  plain e -> Forall plain es ->
  descend start (e :: es) = start ++ separator start ++ e ++ slashed es.
Proof.
  intros He Hes.
  change (descend start (e :: es)) with (descend (path_join start e) es).
  rewrite descend_slashed by (auto using separator_joined).
  rewrite (path_join_plain start e He). now rewrite !append_assoc.
Qed.

Lemma slashed_led (es : list string) : slash_led (slashed es).
Proof. destruct es; simpl; auto. Qed.

Lemma plain_split (e e' t t' : string) :
  contains "/" e = false -> contains "/" e' = false ->
  slash_led t -> slash_led t' ->
  e ++ t = e' ++ t' -> e = e' /\ t = t'.
Proof.
  revert e'; induction e as [|c e IH]; intros [|c' e'] He He' Ht Ht' H;
    simpl in *.
  - now split.
  - subst t. simpl in Ht. subst c'.
    rewrite Ascii.eqb_refl in He'. discriminate.
  - subst t'. simpl in Ht'. subst c.
    rewrite Ascii.eqb_refl in He. discriminate.
  - injection H as -> H.
    apply orb_false_iff in He as [_ He]. apply orb_false_iff in He' as [_ He'].
    destruct (IH e' He He' Ht Ht' H) as [-> ->]. now split.
Qed.

Lemma slashed_inj (es es' : list string) :
  Forall plain es -> Forall plain es' -> slashed es = slashed es' -> es = es'.
Proof.
  intros Hes. revert es'.
  induction Hes as [|e es [_ He] _ IH]; intros es' Hes' H.
  - destruct es'; [reflexivity | discriminate].
  - destruct Hes' as [|e' es' [_ He'] Hes']; [discriminate|].
    simpl in H. injection H as H.
    destruct (plain_split e e' _ _ He He' (slashed_led es) (slashed_led es') H)
      as [-> Ht].
    now rewrite (IH es' Hes' Ht).
Qed.

(** Descending from one path through plain entries reaches different paths
    for different lists of entries. *)
Lemma descend_inj (start : string) (es es' : list string) :
  Forall plain es -> Forall plain es' ->
  descend start es = descend start es' -> es = es'.
Proof.
  intros Hes Hes' H.
  assert (forall e l, plain e -> Forall plain l ->
            start <> descend start (e :: l)) as Hne.
  { intros e l He Hl E. rewrite (descend_cons start e l He Hl) in E.
    apply (f_equal String.length) in E. rewrite !length_append in E.
    destruct He as [He _]. destruct e; [congruence | simpl in E; lia]. }
  destruct Hes as [|e es He Hes], Hes' as [|e' es' He' Hes'].
  - reflexivity.
  - exfalso. now apply (Hne e' es' He' Hes').
  - exfalso. now apply (Hne e es He Hes).
  - rewrite (descend_cons start e es He Hes),
      (descend_cons start e' es' He' Hes') in H.
    apply append_inj_l, append_inj_l in H.
    destruct He as [_ He], He' as [_ He'].
    destruct (plain_split e e' _ _ He He' (slashed_led es) (slashed_led es') H)
      as [-> Ht].
    f_equal. apply slashed_inj; assumption.
Qed.

Lemma descend_app (start : string) (es es' : list string) :
  descend start (es ++ es') = descend (descend start es) es'.
Proof. apply fold_left_app. Qed.

End Paths.

(** On a system whose listings return plain names, a path that the walk
    reaches has a single chain of directories above it, so that no excluded
    directory at or beneath the starting path lies above it. *)
Section PlainListings.

Variable os : OS.

Hypothesis listings_plain :
  forall (d : string) (entries : list string) (e : string),
    listdir os d = Ok entries -> In e entries -> plain e.

Lemma beneath_descend (d q : string) :
  beneath os d q ->
  exists es : list string, es <> [] /\ Forall plain es /\ q = descend d es.
Proof.
  induction 1 as [q [_ (entries & e & Hl & He & ->)]
                 |m q _ (es & Hne & Hes & ->) [_ (entries & e & Hl & He & ->)]].
  - exists [e]. split; [discriminate|]. split; [|reflexivity].
    constructor; [now apply (listings_plain _ _ _ Hl) | constructor].
  - exists (es ++ [e]). split; [now destruct es|]. split.
    + apply Forall_app. split; [exact Hes|].
      constructor; [now apply (listings_plain _ _ _ Hl) | constructor].
    + now rewrite descend_app.
Qed.

Lemma reached_descend (aexclude : list string) (start q : string) :
  reached os aexclude start q ->
  exists es : list string,
    Forall plain es /\ q = descend start es
    /\ forall k : nat, k < List.length es ->
       exists a : string,
         abspath os (descend start (firstn k es)) = Ok a /\ ~ In a aexclude.
Proof.
  induction 1 as [|d a q _ (es & Hes & -> & Hk) Ha Hx Hf
                    [_ (entries & e & Hl & He & ->)]].
  - exists []. split; [constructor|]. split; [reflexivity|].
    simpl. intros k Hk. lia.
  - exists (es ++ [e]). split; [|split].
    + apply Forall_app. split; [exact Hes|].
      constructor; [now apply (listings_plain _ _ _ Hl) | constructor].
    + now rewrite descend_app.
    + intros k Hlt. rewrite length_app in Hlt. simpl in Hlt.
      rewrite firstn_app.
      destruct (Nat.eq_dec k (List.length es)) as [->|Hne].
      * rewrite firstn_all, Nat.sub_diag, app_nil_r. now exists a.
      * replace (k - List.length es) with 0 by lia.
        rewrite app_nil_r. apply Hk. lia.
Qed.

Lemma reached_not_beneath_excluded (aexclude : list string)
  (start q d a : string) :
  reached os aexclude start q ->
  d = start \/ beneath os start d ->
  abspath os d = Ok a -> In a aexclude ->
  ~ beneath os d q.
Proof.
  intros Hr Hd Ha Hin Hb.
  apply reached_descend in Hr as (es & Hes & Hq & Hk).
  assert (exists ds, Forall plain ds /\ d = descend start ds) as (ds & Hds & ->).
  { destruct Hd as [->|Hd]; [now exists []|].
    apply beneath_descend in Hd as (ds & _ & Hds & ->). now exists ds. }
  apply beneath_descend in Hb as (ms & Hne & Hms & Hq').
  rewrite Hq, <- descend_app in Hq'.
  apply descend_inj in Hq'; [|exact Hes | apply Forall_app; now split].
  subst es. destruct (Hk (List.length ds)) as (a' & Ha' & Hx).
  - rewrite length_app. destruct ms; [congruence | simpl; lia].
  - rewrite firstn_app, firstn_all, Nat.sub_diag, app_nil_r in Ha'.
    congruence.
Qed.

End PlainListings.

(** *** Exclusion *)

(** C3, as stated, fails when the walk starts beneath an excluded directory:
    with [notes] excluded and the walk started at [notes/sub], the file
    [notes/sub/c.md], which lies beneath [notes], is discovered. *)
Lemma C3_start_beneath_excluded :
  get_markdown_files 5 notes_os "notes/sub" ["notes"]
  = (["notes/sub/c.md"], Exhausted)
  /\ canonical_excludes notes_os ["notes"] [] = Ok ["/home/sam/notes"]
  /\ abspath notes_os "notes" = Ok "/home/sam/notes"
  /\ beneath notes_os "notes" "notes/sub/c.md".
Proof.
  split; [reflexivity|]. split; [reflexivity|]. split; [reflexivity|].
  apply (beneath_deeper notes_os "notes" "notes/sub").
  - apply beneath_child. split; [reflexivity|].
    exists ["a.md"; "b.txt"; "sub"; "old"], "sub". simpl. tauto.
  - split; [reflexivity|]. exists ["c.md"], "c.md". simpl. tauto.
Qed.

(** The listings of a tree are plain when the entries it names are. *)
Lemma tree_os_plain (cwd : string) (tree : list (string * node)) :
  Forall (fun pn => match snd pn with
                    | Dir entries => Forall plain entries
                    | _ => True
                    end) tree ->
  forall (d : string) (entries : list string) (e : string),
    listdir (tree_os cwd tree) d = Ok entries -> In e entries -> plain e.
Proof.
  intros Ht d entries e. simpl.
  induction Ht as [|[q n] tree Hn _ IH]; simpl; [discriminate|].
  destruct (q =? d)%string; [|exact IH].
  destruct n as [content|es|errno]; try discriminate.
  intros [= <-] He. simpl in Hn. rewrite Forall_forall in Hn. now apply Hn.
Qed.

Lemma notes_listings_plain (d : string) (entries : list string) (e : string) :
  listdir notes_os d = Ok entries -> In e entries -> plain e.
Proof.
  apply tree_os_plain. unfold notes_tree.
  repeat constructor; discriminate.
Qed.

(** C3 (amended): the exclusion set holds the absolute form of every
    excluded path.  No discovered path has its absolute form in the set, and
    every discovered path is reached from the starting path through
    directories none of which has its absolute form in the set; a path of the
    work list whose absolute form is in the set is dropped without being
    yielded or descended into.  Where listings return plain names, no
    discovered path lies beneath a directory that is the starting path or
    lies beneath it and has its absolute form in the set.  Directories above
    the starting path are never tested. *)
Theorem C3_exclusion (fuel : nat) (os : OS) (path : string)
  (exclude : list string) (q : string) :
  In q (fst (get_markdown_files fuel os path exclude)) ->
  exists aexclude : list string,
    Forall2 (fun e a => abspath os e = Ok a) exclude aexclude
    /\ (exists a : string, abspath os q = Ok a /\ ~ In a aexclude)
    /\ reached os aexclude path q
    /\ (forall (todo : list string) (p a : string),
          abspath os p = Ok a -> In a aexclude ->
          walk_step os aexclude (todo ++ [p]) = Next todo)
    /\ ((forall (d : string) (entries : list string) (e : string),
           listdir os d = Ok entries -> In e entries -> plain e) ->
        forall d a : string,
          d = path \/ beneath os path d ->
          abspath os d = Ok a -> In a aexclude ->
          ~ beneath os d q).
Proof.
  unfold get_markdown_files.
  destruct (canonical_excludes os exclude []) as [aexclude|] eqn:Ec;
    [|intros []].
  intros Hq. exists aexclude.
  apply canonical_excludes_spec in Ec as (canon & -> & Hc). simpl in *.
  apply walk_reached in Hq as (Hr & Ha & _ & _).
  split; [exact Hc|]. split; [exact Ha|]. split; [exact Hr|]. split.
  - intros todo p a. apply walk_step_excluded.
  - intros Hplain d a.
    now apply (reached_not_beneath_excluded os Hplain canon path q d a).
Qed.

Lemma C3_exclusion_witness :
  exists aexclude : list string,
    Forall2 (fun e a => abspath notes_os e = Ok a) ["notes/old"] aexclude
    /\ (exists a : string,
          abspath notes_os "notes/sub/c.md" = Ok a /\ ~ In a aexclude)
    /\ reached notes_os aexclude "notes" "notes/sub/c.md"
    /\ (forall d a : string,
          d = "notes" \/ beneath notes_os "notes" d ->
          abspath notes_os d = Ok a -> In a aexclude ->
          ~ beneath notes_os d "notes/sub/c.md").
Proof.
  destruct (C3_exclusion 20 notes_os "notes" ["notes/old"] "notes/sub/c.md")
    as (aexclude & H1 & H2 & H3 & _ & H5).
  - vm_compute. left. reflexivity.
  - exists aexclude. split; [exact H1|]. split; [exact H2|].
    split; [exact H3|]. apply H5. exact notes_listings_plain.
Defined.

(** *** Extension *)

(** C4: every discovered path is a regular file, passes the test on its
    last three characters, and so ends in [.md], as does its name (the text
    after the last slash); a path that does not end in [.md] is never
    discovered. *)
Theorem C4_only_markdown_files (fuel : nat) (os : OS) (path : string)
  (exclude : list string) (q : string) :
  In q (fst (get_markdown_files fuel os path exclude)) ->
  isfile os q = true
  /\ endswith ".md" q = true
  /\ (exists stem : string, q = (stem ++ ".md")%string)
  /\ (exists stem : string, basename q = (stem ++ ".md")%string).
Proof.
  unfold get_markdown_files.
  destruct (canonical_excludes os exclude []) as [aexclude|]; [|intros []].
  intros Hq. apply walk_reached in Hq as (_ & _ & Hf & Hm).
  split; [exact Hf|]. split; [exact Hm|].
  destruct (is_markdown_stem q Hm) as [stem ->].
  split; [now exists stem | apply basename_stem].
Qed.

Lemma C4_only_markdown_files_witness :
  isfile notes_os "notes/a.md" = true
  /\ endswith ".md" "notes/a.md" = true
  /\ (exists stem : string, "notes/a.md" = (stem ++ ".md")%string)
  /\ (exists stem : string, basename "notes/a.md" = (stem ++ ".md")%string).
Proof.
  apply (C4_only_markdown_files 20 notes_os "notes" [] "notes/a.md").
  vm_compute. tauto.
Defined.

(** ** The driver *)

Section LineFeeds.

Local Open Scope string_scope.

Lemma lf_only_last_tail (c : ascii) (s : string) :
  lf_only_last (String c s) = true -> lf_only_last s = true.
Proof.
  destruct s as [|d s]; [reflexivity|]. intros H.
  change (negb (Ascii.eqb c LF) && lf_only_last (String d s) = true) in H.
  now apply andb_true_iff in H.
Qed.

Lemma lf_only_last_head (c d : ascii) (s : string) :
  lf_only_last (String c (String d s)) = true -> Ascii.eqb c LF = false.
Proof.
  intros H.
  change (negb (Ascii.eqb c LF) && lf_only_last (String d s) = true) in H.
  apply andb_true_iff in H as [H _]. now apply negb_true_iff in H.
Qed.

(** Every line that [readlines] returns holds a line feed at most as its
    last character. *)
Lemma readlines_lf (text : string) :
  Forall (fun l => lf_only_last l = true) (readlines text).
Proof.
  induction text as [|c text IH]; simpl; [constructor|].
  destruct (Ascii.eqb c LF) eqn:E; [now constructor|].
  destruct (readlines text) as [|l ls]; [now repeat constructor|].
  inversion IH as [|? ? Hl Hls]; subst. constructor; [|exact Hls].
  destruct l as [|d l]; [reflexivity|].
  change (negb (Ascii.eqb c LF) && lf_only_last (String d l) = true).
  now rewrite E, Hl.
Qed.

Lemma lf_only_last_slice_from (n : nat) (s : string) :
  lf_only_last s = true -> lf_only_last (slice_from n s) = true.
Proof.
  revert s; induction n as [|n IH]; intros [|c s] H; simpl; try exact H.
  apply IH. now apply lf_only_last_tail in H.
Qed.

Lemma lf_free_slice_to (n : nat) (s : string) :
  lf_only_last s = true -> n < String.length s ->
  contains LF (slice_to n s) = false.
Proof.
  revert s; induction n as [|n IH]; intros [|c s] H L; simpl;
    try reflexivity.
  simpl in L. destruct s as [|d s]; [simpl in L; lia|].
  rewrite (lf_only_last_head c d s H). simpl.
  apply IH; [now apply lf_only_last_tail in H | simpl in *; lia].
Qed.

Lemma lf_free_rstrip (s : string) :
  lf_only_last s = true -> contains LF (rstrip s) = false.
Proof.
  induction s as [|c s IH]; intros H; [reflexivity|].
  specialize (IH (lf_only_last_tail c s H)). simpl.
  destruct s as [|d s].
  - simpl. destruct (Ascii.eqb_spec c LF) as [->|Hn]; [reflexivity|].
    destruct (isspace c); [reflexivity|]. simpl.
    apply Ascii.eqb_neq in Hn. now rewrite Hn.
  - pose proof (lf_only_last_head c d s H) as Hc.
    destruct (rstrip (String d s)) as [|e r].
    + destruct (isspace c); [reflexivity|]. simpl. now rewrite Hc.
    + change (Ascii.eqb c LF || contains LF (String e r) = false).
      now rewrite Hc, IH.
Qed.

Lemma lf_free_lstrip (s : string) :
  contains LF s = false -> contains LF (lstrip s) = false.
Proof.
  induction s as [|c s IH]; intros H; [reflexivity|]. simpl.
  destruct (isspace c); [|exact H].
  apply IH. simpl in H. now apply orb_false_iff in H.
Qed.

Lemma lf_free_strip (s : string) :
  lf_only_last s = true -> contains LF (strip s) = false.
Proof. intros H. apply lf_free_lstrip, lf_free_rstrip, H. Qed.

(** The name and the rest are slices of the line, after the prefix or after
    the prefix and a marker. *)
Lemma line_fields_shape (line : string) (d : bool) (name rest : string) :
  line_fields line = Some (d, name, rest) ->
  exists (l : string) (pos : nat),
    (l = slice_from 3 line \/ l = slice_from 4 (slice_from 3 line))
    /\ find "]" l = Some pos
    /\ name = slice_to pos l /\ rest = slice_from (pos + 1) l.
Proof.
  unfold line_fields.
  destruct (_ && _); [|discriminate].
  destruct ((4 <=? _)%nat && (_ =? "x] [")).
  - destruct (find "]" _) as [pos|] eqn:E; [|discriminate].
    intros [= <- <- <-]. eexists _, pos. repeat split; eauto.
  - destruct ((4 <=? _)%nat && (_ =? " ] [")).
    + destruct (find "]" _) as [pos|] eqn:E; [|discriminate].
      intros [= <- <- <-]. eexists _, pos. repeat split; eauto.
    + destruct (find "]" _) as [pos|] eqn:E; [|discriminate].
      intros [= <- <- <-]. eexists _, pos. repeat split; eauto.
Qed.

(** The fields of a record taken from a line of [readlines] hold no line
    feed. *)
Lemma line_todo_lf (path target line : string) (t : Todo) :
  lf_only_last line = true ->
  line_todo path target line = Some t ->
  contains LF (who t) = false /\ contains LF (what t) = false.
Proof.
  intros Hl Ht.
  apply line_todo_some in Ht as (Hw & _ & name & rest & Hf & Hn & Hr).
  apply line_fields_shape in Hf as (l & pos & Hs & Hp & -> & ->).
  assert (lf_only_last l = true) as Hl'
    by (destruct Hs as [-> | ->]; repeat apply lf_only_last_slice_from;
        exact Hl).
  rewrite Hw, <- Hn, Hr. split.
  - apply lf_free_slice_to; [exact Hl' | now apply find_some_lt in Hp].
  - apply lf_free_strip, lf_only_last_slice_from, Hl'.
Qed.

Lemma report_line_body (t : Todo) : report_line t = report_body t ++ nl.
Proof. unfold report_line, report_body. now rewrite !append_assoc. Qed.

Lemma report_body_lf (t : Todo) :
  contains LF (who t) = false -> contains LF (what t) = false ->
  contains LF (file t) = false -> contains LF (report_body t) = false.
Proof.
  intros Hw Ha Hf. unfold report_body.
  rewrite !contains_append, Hw, Ha, Hf. now destruct (done t).
Qed.

Lemma report_body_open (t : Todo) :
  done t = false ->
  startswith "- [ ]" (report_line t) = true
  /\ startswith "- [x]" (report_body t) = false.
Proof.
  intros H. unfold report_line, report_body. rewrite H. split; reflexivity.
Qed.

(** A chunk without inner line feeds is one line of the text. *)
Lemma text_lines_chunk (body rest : string) :
  contains LF body = false ->
  text_lines (body ++ String LF rest) = body :: text_lines rest.
Proof.
  induction body as [|c body IH]; simpl; intros H; [reflexivity|].
  apply orb_false_iff in H as [Hc Hb]. now rewrite Hc, (IH Hb).
Qed.

Lemma report_text_lines (kept : list Todo) :
  Forall (fun t => contains LF (report_body t) = false) kept ->
  text_lines (report_text (map report_line kept))
  = (map report_body kept ++ [EmptyString])%list.
Proof.
  induction 1 as [|t kept Ht _ IH]; [reflexivity|].
  cbn [map]. unfold report_text. cbn [fold_right].
  fold (report_text (map report_line kept)).
  rewrite report_line_body, append_assoc.
  change (nl ++ report_text (map report_line kept))
    with (String LF (report_text (map report_line kept))).
  now rewrite (text_lines_chunk _ _ Ht), IH.
Qed.

End LineFeeds.

Section Driver.

Local Open Scope string_scope.

Variable os : OS.

(** The first loop of [main] gathers, file after file in the order of
    discovery, the entries of each discovered file. *)
Lemma collect_walk (fuel : nat) (target : string)
  (aexclude todo : list string) (todos found : list Todo) :
  collect fuel os target aexclude todo todos = Some (Ok found) ->
  found
  = (todos ++ flat_map (file_todos os target)
                (fst (walk fuel os aexclude todo)))%list.
Proof.
  revert todo todos; induction fuel as [|fuel IH]; simpl; intros todo todos H;
    [discriminate|].
  destruct (walk_step os aexclude todo) as [p todo'|todo'|failed].
  - destruct (analyze_todos_in_file os p target) as [l|] eqn:Ea;
      [|discriminate].
    apply IH in H. destruct (walk fuel os aexclude todo') as [ps e].
    simpl in *. unfold file_todos at 1. rewrite Ea, H.
    now rewrite <- app_assoc.
  - now apply IH.
  - injection H as <-. simpl. now rewrite app_nil_r.
Qed.

(** Where a collected entry comes from. *)
Lemma collect_todos_origin (fuel : nat) (path : string)
  (exclude : list string) (target : string) (todos : list Todo) (t : Todo) :
  collect_todos fuel os path exclude target = Some (Ok todos) ->
  In t todos ->
  In (file t) (fst (get_markdown_files fuel os path exclude))
  /\ who t = target
  /\ contains LF (who t) = false /\ contains LF (what t) = false.
Proof.
  unfold collect_todos, get_markdown_files.
  destruct (canonical_excludes os exclude []) as [aexclude|];
    [|intros [= <-] []].
  intros H Ht. apply collect_walk in H. subst todos. simpl in Ht.
  apply in_flat_map in Ht as (p & Hp & Ht).
  unfold file_todos, analyze_todos_in_file in Ht.
  destruct (read_text os p) as [text|]; [|destruct Ht].
  apply analyze_lines_In in Ht as (line & Hl & Ht).
  pose proof (readlines_lf (universal_newlines text)) as Hlf.
  rewrite Forall_forall in Hlf.
  destruct (line_todo_lf p target line t (Hlf line Hl) Ht) as [Hw Ha].
  apply line_todo_some in Ht as (Hwho & Hfile & _).
  rewrite Hfile. repeat split; assumption.
Qed.

(** The second loop of [main] with the flag set writes a prefix of the
    entries that are not done, all of them unless a write fails. *)
Lemma write_todos_kept (output : string) (todos : list Todo)
  (written : list string) (code : Z) (out : list string) :
  write_todos os output true todos written = (code, out) ->
  exists kept rest : list Todo,
    out = (written ++ map report_line kept)%list
    /\ filter not_done todos = (kept ++ rest)%list
    /\ ((forall w c, write_error os output w c = None) ->
        rest = [] /\ code = 0%Z).
Proof.
  revert written; induction todos as [|t todos IH]; simpl; intros written H.
  - injection H as <- <-. exists [], []. simpl. now rewrite app_nil_r.
  - unfold not_done at 1. destruct (done t); simpl; [now apply IH|].
    destruct (write_error os output written (report_line t)) as [e|] eqn:Ew.
    + injection H as <- <-. exists [], (t :: filter not_done todos).
      simpl. rewrite app_nil_r. split; [reflexivity|]. split; [reflexivity|].
      intros Hn. rewrite Hn in Ew. discriminate.
    + apply IH in H as (kept & rest & -> & Hf & Hok).
      exists (t :: kept), rest. simpl. rewrite <- app_assoc, Hf.
      repeat split; now apply Hok.
Qed.

(** A result of [main], once returned, does not depend on the bound. *)
Lemma collect_more_fuel (fuel : nat) (target : string)
  (aexclude todo : list string) (todos : list Todo)
  (r : io_result (list Todo)) :
  collect fuel os target aexclude todo todos = Some r ->
  collect (S fuel) os target aexclude todo todos = Some r.
Proof.
  revert todo todos; induction fuel as [|fuel IH]; intros todo todos H;
    [discriminate|].
  change (match walk_step os aexclude todo with
          | Yield p todo' =>
              match analyze_todos_in_file os p target with
              | IOError e => Some (IOError e)
              | Ok found =>
                  collect (S fuel) os target aexclude todo' (todos ++ found)
              end
          | Next todo' => collect (S fuel) os target aexclude todo' todos
          | Stop _ => Some (Ok todos)
          end = Some r).
  simpl in H. destruct (walk_step os aexclude todo) as [p todo'|todo'|failed].
  - destruct (analyze_todos_in_file os p target); [now apply IH | exact H].
  - now apply IH.
  - exact H.
Qed.

Lemma main_more_fuel (fuel : nat) (path output : string)
  (exclude : list string) (target : string) (skip_done : bool)
  (r : Z * list string) :
  main fuel os path output exclude target skip_done = Some r ->
  main (S fuel) os path output exclude target skip_done = Some r.
Proof.
  unfold main, collect_todos.
  destruct (canonical_excludes os exclude []) as [aexclude|]; [|auto].
  destruct (collect fuel os target aexclude [path] []) as [c|] eqn:Ec;
    [|discriminate].
  now rewrite (collect_more_fuel _ _ _ _ _ _ Ec).
Qed.

(** A failed read is the only way the first loop returns an error. *)
Lemma collect_error (fuel : nat) (target : string)
  (aexclude todo : list string) (todos : list Todo) (e : Z) :
  collect fuel os target aexclude todo todos = Some (IOError e) ->
  exists p : string,
    In p (fst (walk fuel os aexclude todo)) /\ read_text os p = IOError e.
Proof.
  revert todo todos; induction fuel as [|fuel IH]; simpl; intros todo todos H;
    [discriminate|].
  destruct (walk_step os aexclude todo) as [p todo'|todo'|failed];
    [| now apply IH in H | discriminate].
  destruct (walk fuel os aexclude todo') as [ps w] eqn:Ew.
  destruct (analyze_todos_in_file os p target) as [l|e'] eqn:Ea.
  - apply IH in H as (q & Hq & Hr). rewrite Ew in Hq.
    exists q. split; [now right | exact Hr].
  - injection H as ->. exists p. split; [now left|].
    unfold analyze_todos_in_file in Ea.
    destruct (read_text os p); [discriminate | now injection Ea as ->].
Qed.

(** The second loop returns 0 or the error number of a failed write. *)
Lemma write_todos_code (output : string) (skip_done : bool)
  (todos : list Todo) (written : list string) (code : Z) (out : list string) :
  write_todos os output skip_done todos written = (code, out) ->
  code = 0%Z
  \/ exists (w : list string) (chunk : string),
       write_error os output w chunk = Some code.
Proof.
  revert written; induction todos as [|t todos IH]; simpl; intros written H.
  - injection H as <- _. now left.
  - destruct (skip_done && done t); [now apply (IH written)|].
    destruct (write_error os output written (report_line t)) as [e|] eqn:Ew;
      [|now apply (IH _ H)].
    injection H as <- _. right. now exists written, (report_line t).
Qed.

(** The exit code of [main] is 0 or the error number of a failed read, of
    the failed opening of the output, or of a failed write: a failure of
    the discovery never shows in it. *)
Lemma main_exit_code (fuel : nat) (path output : string)
  (exclude : list string) (target : string) (skip_done : bool)
  (code : Z) (written : list string) :
  main fuel os path output exclude target skip_done = Some (code, written) ->
  code = 0%Z
  \/ (exists p : string,
        In p (fst (get_markdown_files fuel os path exclude))
        /\ read_text os p = IOError code)
  \/ open_write os output = IOError code
  \/ (exists (w : list string) (chunk : string),
        write_error os output w chunk = Some code).
Proof.
  unfold main.
  destruct (collect_todos fuel os path exclude target) as [[todos|e]|] eqn:Ec;
    [| |discriminate].
  - destruct (output =? "-").
    + intros [= H]. apply write_todos_code in H as [->|H]; auto.
    + destruct (open_write os output) as [u|e] eqn:Eo.
      * intros [= H]. apply write_todos_code in H as [->|H]; auto.
      * intros [= <- _]. auto.
  - intros [= <- _]. right. left.
    unfold collect_todos, get_markdown_files in *.
    destruct (canonical_excludes os exclude []) as [aexclude|];
      [|discriminate].
    now apply collect_error in Ec.
Qed.

End Driver.

(** *** Failures of the discovery *)

(** C2 fails on the code: a failed discovery ends the generator after
    [perror], and [main] goes on to write what was collected and returns 0.
    Here for a starting path that is neither a file nor a directory, and for
    a directory whose listing is refused with error 13. *)
Theorem C2_discovery_failure_exits_zero :
  isfile notes_os "nowhere" = false /\ isdir notes_os "nowhere" = false
  /\ get_markdown_files 20 notes_os "nowhere" [] = ([], Failed)
  /\ main 20 notes_os "nowhere" "-" [] "Sam" false = Some (0%Z, [])
  /\ listdir locked_os "notes/vault" = IOError 13%Z
  /\ get_markdown_files 20 locked_os "notes" [] = (["notes/a.md"], Failed)
  /\ main 20 locked_os "notes" "-" [] "Sam" false
     = Some (0%Z, [("- [x] [Sam] Task1 (notes/a.md)" ++ nl)%string]).
Proof. repeat split. Qed.

(** *** Skipping done entries *)

(** C7, as stated, fails for a path that holds a line feed: the entry of the
    file [odd_name] is not done, and its line of the report breaks after
    [log], so that the text of the report has a line that begins with
    [- [x]]. *)
Lemma C7_line_feed_in_path :
  main 5 odd_os odd_name "-" [] "Sam" true
  = Some (0%Z,
          [("- [ ] [Sam] Task (log" ++ nl ++ "- [x] fake.md)" ++ nl)%string])
  /\ text_lines
       (report_text
          [("- [ ] [Sam] Task (log" ++ nl ++ "- [x] fake.md)" ++ nl)%string])
     = ["- [ ] [Sam] Task (log"; "- [x] fake.md)"; EmptyString]
  /\ startswith "- [x]" "- [x] fake.md)" = true.
Proof. repeat split. Qed.

(** C7 (amended): in a run with the flag set, what is written is the line
    of each entry of a list [kept], none of which is done; [kept] is a prefix
    of the collected entries that are not done, in order, and all of them
    when the output opens and no write fails (the exit code is then 0).  So
    every written entry begins with [- [ ]].  When no discovered path holds
    a line feed, no line of the text of the report begins with [- [x]]. *)
Theorem C7_skip_done (fuel : nat) (os : OS) (path output : string)
  (exclude : list string) (target : string) (code : Z)
  (written : list string) :
  main fuel os path output exclude target true = Some (code, written) ->
  (exists kept : list Todo,
     written = map report_line kept
     /\ Forall (fun t => done t = false) kept
     /\ (forall todos : list Todo,
           collect_todos fuel os path exclude target = Some (Ok todos) ->
           (exists rest : list Todo, filter not_done todos = kept ++ rest)
           /\ ((if (output =? "-")%string then Ok tt
                else open_write os output) = Ok tt ->
               (forall w c, write_error os output w c = None) ->
               kept = filter not_done todos /\ code = 0%Z)))
  /\ Forall (fun chunk => startswith "- [ ]" chunk = true) written
  /\ ((forall p : string,
         In p (fst (get_markdown_files fuel os path exclude)) ->
         contains LF p = false) ->
      Forall (fun line => startswith "- [x]" line = false)
        (text_lines (report_text written))).
Proof.
  unfold main.
  destruct (collect_todos fuel os path exclude target) as [[todos|e]|] eqn:Ec;
    [| |discriminate].
  - destruct (if (output =? "-")%string then Ok tt else open_write os output)
      as [u|e] eqn:Eo.
    + intros [= H]. apply write_todos_kept in H as (kept & rest & -> & Hf & Hok).
      simpl.
      assert (forall t, In t kept -> In t todos /\ done t = false) as Hkept.
      { intros t Ht.
        assert (In t (filter not_done todos)) as Hin
          by (rewrite Hf; apply in_or_app; now left).
        apply filter_In in Hin as [Hin Hd]. split; [exact Hin|].
        unfold not_done in Hd. now apply negb_true_iff in Hd. }
      split; [|split].
      * exists kept. split; [reflexivity|]. split.
        -- apply Forall_forall. intros t Ht. now apply Hkept.
        -- intros todos' [= <-]. split; [now exists rest|].
           intros _ Hw. destruct (Hok Hw) as [-> ->].
           now rewrite app_nil_r in Hf.
      * apply Forall_forall. intros chunk Hc.
        apply in_map_iff in Hc as (t & <- & Ht).
        apply report_body_open. now apply Hkept.
      * intros Hp. rewrite report_text_lines.
        -- apply Forall_app. split; [|now repeat constructor].
           apply Forall_forall. intros line Hl.
           apply in_map_iff in Hl as (t & <- & Ht).
           apply report_body_open. now apply Hkept.
        -- apply Forall_forall. intros t Ht.
           destruct (Hkept t Ht) as [Hin _].
           destruct (collect_todos_origin os fuel path exclude target todos t
                       Ec Hin) as (Hfile & _ & Hw & Ha).
           apply report_body_lf; auto.
    + intros [= <- <-]. split; [|split].
      * exists []. split; [reflexivity|]. split; [constructor|].
        intros todos' [= <-]. split; [now exists (filter not_done todos)|].
        intros Hopen. rewrite Hopen in Eo. discriminate.
      * constructor.
      * intros _. now repeat constructor.
  - intros [= <- <-]. split; [|split].
    + exists []. split; [reflexivity|]. split; [constructor|].
      intros todos' [=].
    + constructor.
    + intros _. now repeat constructor.
Qed.

Lemma C7_skip_done_witness :
  Forall (fun chunk => startswith "- [ ]" chunk = true)
    [("- [ ] [Sam] Stale (notes/old/d.md)" ++ nl)%string;
     ("- [ ] [Sam] Task2 (notes/sub/c.md)" ++ nl)%string]
  /\ Forall (fun line => startswith "- [x]" line = false)
       (text_lines
          (report_text
             [("- [ ] [Sam] Stale (notes/old/d.md)" ++ nl)%string;
              ("- [ ] [Sam] Task2 (notes/sub/c.md)" ++ nl)%string])).
Proof.
  destruct (C7_skip_done 20 notes_os "notes" "-" [] "Sam" 0%Z
              [("- [ ] [Sam] Stale (notes/old/d.md)" ++ nl)%string;
               ("- [ ] [Sam] Task2 (notes/sub/c.md)" ++ nl)%string]
              eq_refl) as (_ & H2 & H3).
  split; [exact H2|]. apply H3.
  intros p Hp. vm_compute in Hp.
  destruct Hp as [<-|[<-|[<-|[]]]]; reflexivity.
Defined.

(** * Further properties of the code *)

(** ** The grammar of a stored line *)

Section Grammar.

Local Open Scope string_scope.

Variables path target : string.

(** A line with a marker, a name without a closing bracket, the bracket
    and a tail. *)
Lemma line_todo_marked (d : bool) (name tail : string) :
  contains "]" name = false ->
  line_todo path target
    ("- [" ++ (if d then "x] [" else " ] [") ++ name ++ "]" ++ tail)
  = if name =? target then Some (mkTodo d target (strip tail) path) else None.
Proof.
  intros Hn. unfold line_todo. rewrite line_fields_prefixed.
  set (l := name ++ "]" ++ tail).
  assert (find "]" l = Some (String.length name)) as Hf
    by (apply (find_append "]" name tail Hn)).
  assert (slice_from (String.length name + 1) l = tail) as Hs.
  { replace (String.length name + 1) with (String.length (name ++ "]"))
      by (rewrite length_append; reflexivity).
    unfold l. rewrite <- (append_assoc name "]" tail).
    apply slice_from_append. }
  assert (slice_to (String.length name) l = name) as Ht
    by apply slice_to_append.
  assert (forall m, String.length m = 4 -> slice_from 4 (m ++ l) = l) as H4
    by (intros m <-; apply slice_from_append).
  assert (forall m, startswith m (m ++ l) = true) as Hp.
  { intros m. unfold startswith.
    rewrite prefix_slice, slice_to_append, String.eqb_refl, length_append.
    destruct (Nat.leb_spec (String.length m) (String.length m + String.length l));
      [reflexivity | lia]. }
  assert (startswith "x] [" (" ] [" ++ l) = false) as Hx
    by (unfold startswith; rewrite prefix_slice; reflexivity).
  destruct d.
  - rewrite Hp, (H4 "x] [" eq_refl), Hf, Hs, Ht.
    destruct (String.eqb_spec name target) as [->|]; reflexivity.
  - rewrite Hx, Hp, (H4 " ] [" eq_refl), Hf, Hs, Ht.
    destruct (String.eqb_spec name target) as [->|]; reflexivity.
Qed.

(** The two tests of a marker, read as tests of a prefix. *)
Lemma marker_test (marker l : string) :
  String.length marker = 4 ->
  (4 <=? String.length l)%nat && (slice_to 4 l =? marker)
  = startswith marker l.
Proof.
  intros H. unfold startswith. now rewrite prefix_slice, H.
Qed.

Lemma startswith_split (p l : string) :
  startswith p l = true -> l = p ++ slice_from (String.length p) l.
Proof.
  unfold startswith. rewrite prefix_slice. intros H.
  apply andb_true_iff in H as [_ H]. apply String.eqb_eq in H.
  rewrite <- (slice_to_from (String.length p) l) at 1. now rewrite H.
Qed.

(** A line that gives fields has the prefix, then a marker or nothing, then
    the name, a closing bracket and the rest. *)
Lemma line_fields_grammar (line : string) (d : bool) (name rest : string) :
  line_fields line = Some (d, name, rest) ->
  exists marker : string,
    line = "- [" ++ marker ++ name ++ "]" ++ rest
    /\ contains "]" name = false
    /\ ((marker = "x] [" /\ d = true)
        \/ (marker = " ] [" /\ d = false)
        \/ (marker = EmptyString /\ d = false
            /\ startswith "x] [" (name ++ "]" ++ rest) = false
            /\ startswith " ] [" (name ++ "]" ++ rest) = false)).
Proof.
  unfold line_fields.
  change ((3 <=? String.length line)%nat && (slice_to 3 line =? "- ["))
    with ((String.length "- [" <=? String.length line)%nat
          && (slice_to (String.length "- [") line =? "- [")).
  rewrite <- prefix_slice. fold (startswith "- [" line).
  destruct (startswith "- [" line) eqn:E3; [|discriminate].
  apply startswith_split in E3. simpl String.length in E3.
  set (l0 := slice_from 3 line) in *.
  rewrite !marker_test by reflexivity.
  assert (forall l pos,
            find "]" l = Some pos ->
            l = slice_to pos l ++ "]" ++ slice_from (pos + 1) l
            /\ contains "]" (slice_to pos l) = false) as Hfind
    by (intros l pos H; now apply find_some in H).
  destruct (startswith "x] [" l0) eqn:Ex.
  - apply startswith_split in Ex. simpl String.length in Ex.
    destruct (find "]" (slice_from 4 l0)) as [pos|] eqn:Ef; [|discriminate].
    intros [= <- <- <-]. destruct (Hfind _ _ Ef) as [Hl Hc].
    exists "x] [". split; [|split; [exact Hc | now left]].
    rewrite E3, Ex at 1. now rewrite Hl at 1.
  - destruct (startswith " ] [" l0) eqn:Eb.
    + apply startswith_split in Eb. simpl String.length in Eb.
      destruct (find "]" (slice_from 4 l0)) as [pos|] eqn:Ef; [|discriminate].
      intros [= <- <- <-]. destruct (Hfind _ _ Ef) as [Hl Hc].
      exists " ] [". split; [|split; [exact Hc | right; now left]].
      rewrite E3, Eb at 1. now rewrite Hl at 1.
    + destruct (find "]" l0) as [pos|] eqn:Ef; [|discriminate].
      intros [= <- <- <-]. destruct (Hfind _ _ Ef) as [Hl Hc].
      exists EmptyString. split; [|split; [exact Hc|]].
      * rewrite E3 at 1. now rewrite Hl at 1.
      * right. right. rewrite <- Hl. auto.
Qed.

End Grammar.

(** X1: a line made of the prefix, a marker, a name without a closing
    bracket, the bracket and a tail is stored exactly when the name is the
    target; the record is done for the marker with the x and not done for the
    marker with the blank, and its description is the stripped tail. *)
Theorem X1_marked_line (path target name tail : string) :
  contains "]" name = false ->
  line_todo path target ("- [x] [" ++ name ++ "]" ++ tail)
  = (if (name =? target)%string
     then Some (mkTodo true target (strip tail) path) else None)
  /\ line_todo path target ("- [ ] [" ++ name ++ "]" ++ tail)
     = (if (name =? target)%string
        then Some (mkTodo false target (strip tail) path) else None).
Proof.
  intros Hn. split.
  - exact (line_todo_marked path target true name tail Hn).
  - exact (line_todo_marked path target false name tail Hn).
Qed.

Lemma X1_marked_line_witness :
  line_todo "n.md" "Sam" ("- [x] [" ++ "Sam" ++ "]" ++ " Ship it  ")
  = Some (mkTodo true "Sam" "Ship it" "n.md")
  /\ line_todo "n.md" "Sam" ("- [ ] [" ++ "Sam" ++ "]" ++ " Ship it  ")
     = Some (mkTodo false "Sam" "Ship it" "n.md").
Proof.
  exact (X1_marked_line "n.md" "Sam" "Sam" " Ship it  " eq_refl).
Defined.

(** X2: every stored record comes from a line of the form prefix, marker
    or nothing, target, closing bracket, tail.  The record is done exactly
    for the marker with the x; the target holds no closing bracket, and the
    description is the stripped tail. *)
Theorem X2_record_origin (path target line : string) (t : Todo) :
  line_todo path target line = Some t ->
  exists marker tail : string,
    line = ("- [" ++ marker ++ target ++ "]" ++ tail)%string
    /\ ((marker = "x] [" /\ done t = true)
        \/ (marker = " ] [" /\ done t = false)
        \/ (marker = EmptyString /\ done t = false))
    /\ contains "]" target = false
    /\ who t = target /\ what t = strip tail /\ file t = path.
Proof.
  intros H.
  apply line_todo_some in H as (Hw & Hp & name & rest & Hf & -> & Hwhat).
  apply line_fields_grammar in Hf as (marker & Hl & Hc & Hm).
  exists marker, rest. repeat split; try assumption.
  destruct Hm as [?|[?|(? & ? & _)]]; auto.
Qed.

Lemma X2_record_origin_witness :
  exists marker tail : string,
    "- [ ] [Sam] Task2" = ("- [" ++ marker ++ "Sam" ++ "]" ++ tail)%string
    /\ ((marker = "x] [" /\ false = true)
        \/ (marker = " ] [" /\ false = false)
        \/ (marker = EmptyString /\ false = false))
    /\ contains "]" "Sam" = false
    /\ "Sam" = "Sam" /\ "Task2" = strip tail /\ "n.md" = "n.md".
Proof.
  exact (X2_record_origin "n.md" "Sam" "- [ ] [Sam] Task2"
           (mkTodo false "Sam" "Task2" "n.md") eq_refl).
Defined.

(** ** The fields of a record *)

Section Stripping.

Local Open Scope string_scope.

Lemma lstrip_head (s : string) (c : ascii) (r : string) :
  lstrip s = String c r -> isspace c = false.
Proof.
  induction s as [|d s IH]; simpl; [discriminate|].
  destruct (isspace d) eqn:E; [exact IH|].
  intros [= <- _]. exact E.
Qed.

Lemma last_char_cons (c : ascii) (s : string) :
  s <> EmptyString -> last_char (String c s) = last_char s.
Proof. destruct s; [congruence | reflexivity]. Qed.

Lemma lstrip_last (s : string) :
  lstrip s <> EmptyString -> last_char (lstrip s) = last_char s.
Proof.
  induction s as [|d s IH]; simpl; [reflexivity|].
  destruct (isspace d); [|reflexivity].
  intros H. rewrite (IH H). destruct s; [now elim H | reflexivity].
Qed.

Lemma rstrip_last (s : string) (c : ascii) :
  last_char (rstrip s) = Some c -> isspace c = false.
Proof.
  induction s as [|d s IH]; simpl; [discriminate|].
  destruct (rstrip s) as [|e r].
  - destruct (isspace d) eqn:E; [discriminate|].
    intros [= <-]. exact E.
  - exact IH.
Qed.

Lemma trimmed_strip (s : string) : trimmed (strip s).
Proof.
  unfold strip. split.
  - intros c r. apply lstrip_head.
  - intros c H. rewrite lstrip_last in H; [now apply rstrip_last in H|].
    intros E. rewrite E in H. discriminate.
Qed.

Lemma rstrip_fixed (s : string) :
  (forall c : ascii, last_char s = Some c -> isspace c = false) ->
  rstrip s = s.
Proof.
  induction s as [|d s IH]; intros H; [reflexivity|].
  simpl. destruct s as [|e s].
  - simpl. now rewrite (H d eq_refl).
  - rewrite IH; [reflexivity|]. intros c Hc. now apply H.
Qed.

Lemma strip_fixed (s : string) : trimmed s -> strip s = s.
Proof.
  intros [Hh Hl]. unfold strip. rewrite (rstrip_fixed s Hl).
  destruct s as [|c r]; [reflexivity|].
  simpl. now rewrite (Hh c r eq_refl).
Qed.


End Stripping.

(** X3: the fields of every record returned for a file: the source is the
    path of the file, the description is stripped (it neither begins nor ends
    with whitespace, and stripping it again changes nothing), and neither the
    name nor the description holds a line feed. *)
Theorem X3_record_fields (os : OS) (path target : string) (todos : list Todo) :
  analyze_todos_in_file os path target = Ok todos ->
  Forall (fun t =>
            file t = path
            /\ trimmed (what t) /\ strip (what t) = what t
            /\ contains LF (who t) = false
            /\ contains LF (what t) = false) todos.
Proof.
  unfold analyze_todos_in_file.
  destruct (read_text os path) as [text|e]; [|discriminate].
  intros [= <-]. apply Forall_forall. intros t Ht.
  apply analyze_lines_In in Ht as (line & Hl & Ht).
  pose proof (readlines_lf (universal_newlines text)) as Hlf.
  rewrite Forall_forall in Hlf.
  destruct (line_todo_lf path target line t (Hlf line Hl) Ht) as [Hw Ha].
  apply line_todo_some in Ht as (_ & Hfile & name & rest & _ & _ & Hwhat).
  assert (trimmed (what t)) as Htr by (rewrite Hwhat; apply trimmed_strip).
  repeat split; try assumption; try apply Htr. now apply strip_fixed.
Qed.

Lemma X3_record_fields_witness :
  Forall (fun t =>
            file t = "notes/a.md"
            /\ trimmed (what t) /\ strip (what t) = what t
            /\ contains LF (who t) = false
            /\ contains LF (what t) = false)
    [mkTodo true "Sam" "Task1" "notes/a.md"].
Proof.
  exact (X3_record_fields notes_os "notes/a.md" "Sam"
           [mkTodo true "Sam" "Task1" "notes/a.md"] eq_refl).
Defined.

(** X4: a target that holds a line feed matches no line: the extractor
    returns the empty list for every readable file. *)
Theorem X4_line_feed_in_target (os : OS) (path target text : string) :
  contains LF target = true ->
  read_text os path = Ok text ->
  analyze_todos_in_file os path target = Ok [].
Proof.
  intros Ht Hr. unfold analyze_todos_in_file. rewrite Hr. f_equal.
  destruct (analyze_lines path target (readlines (universal_newlines text)) [])
    as [|t ts] eqn:E; [reflexivity|].
  assert (In t (analyze_lines path target
                  (readlines (universal_newlines text)) [])) as Hin
    by (rewrite E; now left).
  apply analyze_lines_In in Hin as (line & Hl & Hs).
  pose proof (readlines_lf (universal_newlines text)) as Hlf.
  rewrite Forall_forall in Hlf.
  destruct (line_todo_lf path target line t (Hlf line Hl) Hs) as [Hw _].
  apply line_todo_some in Hs as (Hwho & _). congruence.
Qed.

Lemma X4_line_feed_in_target_witness :
  analyze_todos_in_file notes_os "notes/a.md" ("Sam" ++ nl) = Ok [].
Proof.
  exact (X4_line_feed_in_target notes_os "notes/a.md" ("Sam" ++ nl)
           ("- [x] [Sam] Task1" ++ nl ++ "- [ ] [Bob] Other" ++ nl)
           eq_refl eq_refl).
Defined.



(** ** Line ends *)

Section LineEnds.

Local Open Scope string_scope.

Lemma universal_newlines_fixed (text : string) :
  contains CR text = false -> universal_newlines text = text.
Proof.
  induction text as [|c text IH]; simpl; intros H; [reflexivity|].
  apply orb_false_iff in H as [Hc Ht]. now rewrite Hc, (IH Ht).
Qed.

Lemma universal_newlines_crlf (text : string) :
  contains CR text = false -> universal_newlines (crlf text) = text.
Proof.
  induction text as [|c text IH]; simpl; intros H; [reflexivity|].
  apply orb_false_iff in H as [Hc Ht].
  destruct (Ascii.eqb_spec c LF) as [->|Hn].
  - simpl. now rewrite (IH Ht).
  - simpl. now rewrite Hc, (IH Ht).
Qed.

(** The translation of a text that continues after a line feed is the
    translation of the text up to the line feed, followed by that of the
    rest. *)
Lemma universal_newlines_cut (n : nat) (a : string) :
  String.length a <= n ->
  exists u : string,
    forall b : string,
      universal_newlines (a ++ String LF b)
      = u ++ String LF (universal_newlines b).
Proof.
  revert a; induction n as [|n IH]; intros a Hn.
  - destruct a; [|simpl in Hn; lia]. now exists EmptyString.
  - destruct a as [|c a]; [now exists EmptyString|].
    simpl in Hn. destruct (Ascii.eqb c CR) eqn:Ec.
    + destruct a as [|c' a].
      * exists EmptyString. intros b. simpl. now rewrite Ec.
      * destruct (Ascii.eqb c' LF) eqn:El.
        -- destruct (IH a) as [u Hu]; [simpl in Hn; lia|].
           exists (String LF u). intros b. simpl. rewrite Ec, El.
           now rewrite Hu.
        -- destruct (IH (String c' a)) as [u Hu]; [lia|].
           exists (String LF u). intros b.
           specialize (Hu b). simpl in *. now rewrite Ec, El, Hu.
    + destruct (IH a) as [u Hu]; [lia|].
      exists (String c u). intros b. simpl. now rewrite Ec, Hu.
Qed.

Lemma readlines_nil (s : string) : readlines s = [] -> s = EmptyString.
Proof.
  destruct s as [|c s]; [reflexivity|]. simpl.
  destruct (Ascii.eqb c LF); [discriminate|].
  destruct (readlines s); discriminate.
Qed.

Lemma readlines_cut (u y : string) :
  readlines (u ++ String LF y)
  = (readlines (u ++ nl) ++ readlines y)%list.
Proof.
  induction u as [|c u IH]; [reflexivity|]. simpl.
  destruct (Ascii.eqb c LF); [now rewrite IH|].
  rewrite IH. destruct (readlines (u ++ nl)) as [|l ls] eqn:E; [|reflexivity].
  apply readlines_nil in E. now destruct u.
Qed.

End LineEnds.

(** X5: every line is judged on its own.  The records of a text that
    continues after a line feed are the records of the text up to that line
    feed, followed by the records of the rest. *)
Theorem X5_lines_independent (path target a b : string) :
  analyze_lines path target
    (readlines (universal_newlines (a ++ nl ++ b))) []
  = analyze_lines path target (readlines (universal_newlines (a ++ nl))) []
    ++ analyze_lines path target (readlines (universal_newlines b)) [].
Proof.
  destruct (universal_newlines_cut (String.length a) a (le_n _)) as [u Hu].
  change (a ++ nl ++ b)%string with (a ++ String LF b)%string.
  change (a ++ nl)%string with (a ++ String LF EmptyString)%string.
  rewrite !Hu, readlines_cut, !analyze_lines_flat_map, flat_map_app.
  reflexivity.
Qed.

(** X6: a file saved with CR LF line ends gives the same records as the
    file saved with line feeds alone. *)
Theorem X6_crlf_same_records (os1 os2 : OS) (path target text : string) :
  contains CR text = false ->
  read_text os1 path = Ok text ->
  read_text os2 path = Ok (crlf text) ->
  analyze_todos_in_file os2 path target = analyze_todos_in_file os1 path target.
Proof.
  intros Hc H1 H2. unfold analyze_todos_in_file. rewrite H1, H2.
  now rewrite (universal_newlines_crlf text Hc),
    (universal_newlines_fixed text Hc).
Qed.

Lemma X6_crlf_same_records_witness :
  analyze_todos_in_file
    (tree_os "/home/sam"
       [("notes/a.md",
         File (crlf ("- [x] [Sam] Task1" ++ nl ++ "- [ ] [Bob] Other" ++ nl)))])
    "notes/a.md" "Sam"
  = analyze_todos_in_file notes_os "notes/a.md" "Sam".
Proof.
  exact (X6_crlf_same_records notes_os
           (tree_os "/home/sam"
              [("notes/a.md",
                File (crlf ("- [x] [Sam] Task1" ++ nl
                            ++ "- [ ] [Bob] Other" ++ nl)))])
           "notes/a.md" "Sam"
           ("- [x] [Sam] Task1" ++ nl ++ "- [ ] [Bob] Other" ++ nl)
           eq_refl eq_refl eq_refl).
Defined.

(** ** What an exhaustive walk finds *)

Section Completeness.

Variable os : OS.
Variable aexclude : list string.

(** The three ways an iteration ends without a yield and without a
    failure. *)
Lemma walk_step_next_cases (todo todo' : list string) :
  walk_step os aexclude todo = Next todo' ->
  exists (r : list string) (p a : string),
    todo = r ++ [p] /\ abspath os p = Ok a
    /\ ((In a aexclude /\ todo' = r)
        \/ (~ In a aexclude /\ isfile os p = true
            /\ is_markdown p = false /\ todo' = r)
        \/ (exists entries : list string,
              ~ In a aexclude /\ isfile os p = false /\ isdir os p = true
              /\ listdir os p = Ok entries
              /\ todo' = r ++ map (path_join p) entries)).
Proof.
  unfold walk_step.
  destruct (pop todo) as [[r x]|] eqn:Ep; [|discriminate].
  apply pop_some in Ep.
  destruct (abspath os x) as [a|] eqn:Ea; [|discriminate].
  intros H. exists r, x, a. split; [exact Ep|]. split; [exact Ea|].
  destruct (excluded aexclude a) eqn:Ex.
  - injection H as <-. left. split; [now apply excluded_In | reflexivity].
  - apply excluded_not_In in Ex. destruct (isfile os x) eqn:Ef.
    + destruct (is_markdown x) eqn:Em; [discriminate|].
      injection H as <-. right. left. auto.
    + destruct (isdir os x) eqn:Ed; [|discriminate].
      destruct (listdir os x) as [entries|] eqn:El; [|discriminate].
      injection H as <-. right. right. exists entries. auto.
Qed.

(** A path reached from [start] is [start] itself, or is reached from an
    entry of [start], which then is a directory that is not excluded. *)
Lemma reached_first (start q : string) :
  reached os aexclude start q ->
  q = start
  \/ exists a m : string,
       abspath os start = Ok a /\ ~ In a aexclude
       /\ isfile os start = false /\ child_of os start m
       /\ reached os aexclude m q.
Proof.
  induction 1 as [|d a q Hr IH Ha Hx Hf Hc]; [now left|]. right.
  destruct IH as [->|(a' & m & Ha' & Hx' & Hf' & Hc' & Hm)].
  - exists a, q. split; [exact Ha|]. split; [exact Hx|].
    split; [exact Hf|]. split; [exact Hc | apply reached_start].
  - exists a', m. split; [exact Ha'|]. split; [exact Hx'|].
    split; [exact Hf'|]. split; [exact Hc'|].
    now apply (reached_entry os aexclude m d a q).
Qed.

(** When the work list runs empty, every file that can be yielded and is
    reached from a path of the work list has been yielded. *)
Lemma walk_complete (fuel : nat) (todo ps : list string) :
  walk fuel os aexclude todo = (ps, Exhausted) ->
  forall p q : string,
    In p todo -> reached os aexclude p q -> yieldable os aexclude q ->
    In q ps.
Proof.
  revert todo ps; induction fuel as [|fuel IH]; intros todo ps H;
    [discriminate|].
  rewrite walk_unfold in H.
  destruct (walk_step os aexclude todo) as [x todo'|todo'|failed] eqn:Es.
  - apply walk_step_yield in Es as (-> & _ & Hf & _).
    destruct (walk fuel os aexclude todo') as [ps' e] eqn:Ew.
    injection H as <- ->. intros p q Hp Hr Hy.
    apply in_app_or in Hp as [Hp|[<-|[]]].
    + right. now apply (IH todo' ps' Ew p q).
    + apply reached_first in Hr as [->|(a & m & _ & _ & Hf' & _)];
        [now left | congruence].
  - apply walk_step_next_cases in Es
      as (r & x & a & -> & Ha & [(Hx & ->)|[(Hx & Hf & Hm & ->)|
            (entries & Hx & Hf & Hd & Hl & ->)]]);
      intros p q Hp Hr Hy; apply in_app_or in Hp as [Hp|[<-|[]]].
    + now apply (IH r ps H p q).
    + apply reached_first in Hr as [->|(a' & m & Ha' & Hx' & _)].
      * destruct Hy as [(a' & Ha' & Hx') _]. congruence.
      * congruence.
    + now apply (IH r ps H p q).
    + apply reached_first in Hr as [->|(a' & m & _ & _ & Hf' & _)].
      * destruct Hy as (_ & _ & Hm'). congruence.
      * congruence.
    + apply (IH _ ps H p q); [apply in_or_app; now left | exact Hr | exact Hy].
    + apply reached_first in Hr as [->|(a' & m & _ & _ & _ & Hc & Hm)].
      * destruct Hy as (_ & Hf' & _). congruence.
      * destruct Hc as [_ (entries' & e & Hl' & He & ->)].
        rewrite Hl in Hl'. injection Hl' as <-.
        apply (IH _ ps H (path_join x e) q); [|exact Hm | exact Hy].
        apply in_or_app. right. now apply in_map.
  - destruct failed; [discriminate|]. injection H as <-.
    unfold walk_step in Es. destruct (pop todo) as [[r x]|] eqn:Ep.
    + destruct (abspath os x); [|discriminate].
      destruct (excluded aexclude _); [discriminate|].
      destruct (isfile os x); [destruct (is_markdown x); discriminate|].
      destruct (isdir os x); [|discriminate].
      destruct (listdir os x); discriminate.
    + destruct todo as [|y todo]; [intros p q []|].
      simpl in Ep. destruct (pop todo) as [[? ?]|]; discriminate.
Qed.

End Completeness.

(** X8: a walk that runs until its work list is empty discovers exactly
    the paths that are reached from the starting path through directories
    that are not excluded and that are themselves files, not excluded, ending
    in [.md]: nothing of that kind is missed. *)
Theorem X8_discovery_complete (fuel : nat) (os : OS) (path : string)
  (exclude ps : list string) :
  get_markdown_files fuel os path exclude = (ps, Exhausted) ->
  exists aexclude : list string,
    Forall2 (fun e a => abspath os e = Ok a) exclude aexclude
    /\ forall q : string,
         In q ps
         <-> reached os aexclude path q /\ yieldable os aexclude q.
Proof.
  unfold get_markdown_files.
  destruct (canonical_excludes os exclude []) as [aexclude|] eqn:Ec;
    [|discriminate].
  intros H. exists aexclude.
  apply canonical_excludes_spec in Ec as (canon & -> & Hc). simpl in *.
  split; [exact Hc|]. intros q. split.
  - intros Hq. assert (In q (fst (walk fuel os canon [path]))) as Hq'
      by now rewrite H.
    apply walk_reached in Hq' as (Hr & Ha & Hf & Hm).
    split; [exact Hr | now repeat split].
  - intros [Hr Hy].
    apply (walk_complete os canon fuel [path] ps H path q); auto.
    now left.
Qed.

Lemma X8_discovery_complete_witness :
  exists aexclude : list string,
    Forall2 (fun e a => abspath notes_os e = Ok a) ["notes/old"] aexclude
    /\ forall q : string,
         In q ["notes/sub/c.md"; "notes/a.md"]
         <-> reached notes_os aexclude "notes" q
             /\ yieldable notes_os aexclude q.
Proof.
  exact (X8_discovery_complete 20 notes_os "notes" ["notes/old"]
           ["notes/sub/c.md"; "notes/a.md"] eq_refl).
Defined.

(** ** No path is discovered twice *)

Section NoRepeat.

Variable os : OS.
Variable aexclude : list string.
Variable start : string.

Hypothesis listings_plain :
  forall (d : string) (entries : list string) (e : string),
    listdir os d = Ok entries -> In e entries -> plain e.

Hypothesis listings_nodup :
  forall (d : string) (entries : list string),
    listdir os d = Ok entries -> NoDup entries.

Lemma below_self (p : string) : based start p -> below start p p.
Proof.
  intros (es & Hes & ->). exists es, []. now rewrite app_nil_r.
Qed.

Lemma based_entry (x e : string) :
  based start x -> plain e -> based start (path_join x e).
Proof.
  intros (ex & Hex & ->) He. exists (ex ++ [e]). split.
  - apply Forall_app. split; [exact Hex | now constructor].
  - now rewrite descend_app.
Qed.

(** What lies below an entry of [x] lies below [x]. *)
Lemma below_entry (x e q : string) :
  based start x -> plain e -> below start (path_join x e) q ->
  below start x q.
Proof.
  intros (ex & Hex & ->) He (es & es' & Hp & Hj & ->).
  apply Forall_app in Hp as [Hes Hes'].
  assert (es = ex ++ [e]) as ->.
  { apply (descend_inj start); [exact Hes | |].
    - apply Forall_app. split; [exact Hex | now constructor].
    - now rewrite <- Hj, descend_app. }
  exists ex, ([e] ++ es'). rewrite app_assoc. split; [|now split].
  apply Forall_app. split; [|exact Hes'].
  apply Forall_app. split; [exact Hex | now constructor].
Qed.

(** A path below [p] that is an entry of [x] is that entry, or [x] itself
    lies below [p]. *)
Lemma below_to_entry (p x e : string) :
  based start x -> plain e -> below start p (path_join x e) ->
  p = path_join x e \/ below start p x.
Proof.
  intros (ex & Hex & ->) He (es & es' & Hp & -> & Hj).
  assert (es ++ es' = ex ++ [e]) as E.
  { apply (descend_inj start); [exact Hp | |].
    - apply Forall_app. split; [exact Hex | now constructor].
    - now rewrite <- Hj, descend_app. }
  destruct es' as [|e' es'' _] using rev_ind.
  - left. rewrite app_nil_r in E. now rewrite E, descend_app.
  - right. rewrite app_assoc in E. apply app_inj_tail in E as [E _].
    exists es, es''. rewrite E. split; [exact Hex | now split].
Qed.

Lemma below_child (x e : string) :
  based start x -> plain e -> below start x (path_join x e).
Proof.
  intros (ex & Hex & ->) He. exists ex, [e]. split; [|split].
  - apply Forall_app. split; [exact Hex | now constructor].
  - reflexivity.
  - now rewrite descend_app.
Qed.

Lemma entry_not_above (x e : string) :
  based start x -> plain e -> ~ below start (path_join x e) x.
Proof.
  intros (ex & Hex & ->) He (es & es' & Hp & Hj & Hx).
  apply descend_inj in Hx; [|exact Hex | exact Hp].
  assert (es = ex ++ [e]) as E.
  { apply (descend_inj start).
    - now apply Forall_app in Hp.
    - apply Forall_app. split; [exact Hex | now constructor].
    - now rewrite <- Hj, descend_app. }
  apply (f_equal (@List.length string)) in E.
  rewrite Hx, !length_app in E. simpl in E. lia.
Qed.

Lemma path_join_entries_inj (x e1 e2 : string) :
  plain e1 -> plain e2 -> path_join x e1 = path_join x e2 -> e1 = e2.
Proof.
  intros H1 H2. rewrite (path_join_plain x e1 H1), (path_join_plain x e2 H2).
  intros H. now apply append_inj_l, append_inj_l in H.
Qed.

(** The work list keeps three properties: its paths are built from [start],
    no path occurs twice in it, and none lies below another.  Under them no
    path is yielded twice, and what is yielded lies below a path of the work
    list. *)
Lemma walk_no_repeat (fuel : nat) (todo : list string) :
  (forall p : string, In p todo -> based start p) ->
  NoDup todo ->
  (forall p p' : string,
     In p todo -> In p' todo -> below start p p' -> p = p') ->
  NoDup (fst (walk fuel os aexclude todo))
  /\ forall q : string,
       In q (fst (walk fuel os aexclude todo)) ->
       exists p : string, In p todo /\ below start p q.
Proof.
  revert todo; induction fuel as [|fuel IH]; intros todo Hb Hn Ha;
    [split; [constructor | intros q []]|].
  rewrite walk_unfold.
  destruct (walk_step os aexclude todo) as [x todo'|todo'|failed] eqn:Es;
    [| |split; [constructor | intros q []]].
  - apply walk_step_yield in Es as (-> & _).
    assert (~ In x todo') as Hx
      by (apply NoDup_remove_2 in Hn; now rewrite app_nil_r in Hn).
    destruct (IH todo') as [Hnd Hq].
    + intros p Hp. apply Hb, in_or_app. now left.
    + now apply NoDup_app_remove_r in Hn.
    + intros p p' Hp Hp'. apply Ha; apply in_or_app; now left.
    + destruct (walk fuel os aexclude todo') as [ps e]. simpl in *. split.
      * constructor; [|exact Hnd]. intros Hin.
        destruct (Hq x Hin) as (p & Hp & Hbl). apply Hx.
        rewrite <- (Ha p x); [exact Hp | | |exact Hbl];
          apply in_or_app; [now left | right; now left].
      * intros q [<-|Hin].
        -- exists x. split; [apply in_or_app; right; now left|].
           apply below_self, Hb, in_or_app. right. now left.
        -- destruct (Hq q Hin) as (p & Hp & Hbl).
           exists p. split; [apply in_or_app; now left | exact Hbl].
  - apply walk_step_next_cases in Es as (r & x & a & -> & _ & Hc).
    assert (~ In x r) as Hx
      by (apply NoDup_remove_2 in Hn; now rewrite app_nil_r in Hn).
    assert (NoDup r) as Hnr by now apply NoDup_app_remove_r in Hn.
    assert (In x (r ++ [x])) as Hxin by (apply in_or_app; right; now left).
    assert (forall p, In p r -> In p (r ++ [x])) as Hrin
      by (intros p Hp; apply in_or_app; now left).
    assert (based start x) as Hbx by auto.
    assert (forall todo',
              todo' = r ->
              NoDup (fst (walk fuel os aexclude todo'))
              /\ forall q,
                   In q (fst (walk fuel os aexclude todo')) ->
                   exists p, In p (r ++ [x]) /\ below start p q) as Hdrop.
    { intros ? ->. destruct (IH r) as [Hnd Hq]; auto.
      split; [exact Hnd|]. intros q Hin.
      destruct (Hq q Hin) as (p & Hp & Hbl). exists p. auto. }
    destruct Hc as [(_ & E)|[(_ & _ & _ & E)|(entries & _ & _ & _ & Hl & ->)]];
      [now apply Hdrop | now apply Hdrop |].
    assert (forall e, In e entries -> plain e) as Hpl
      by (intros e; apply (listings_plain x entries e Hl)).
    assert (forall p e, In p r -> In e entries -> p <> path_join x e) as Hdis.
    { intros p e Hp He ->. apply Hx.
      rewrite (Ha x (path_join x e)); auto. apply below_child; auto. }
    destruct (IH (r ++ map (path_join x) entries)) as [Hnd Hq].
    + intros p Hp. apply in_app_or in Hp as [Hp|Hp]; [auto|].
      apply in_map_iff in Hp as (e & <- & He). apply based_entry; auto.
    + apply NoDup_app; [exact Hnr | |].
      * apply NoDup_map_NoDup_ForallPairs;
          [|exact (listings_nodup x entries Hl)].
        intros e1 e2 H1 H2. apply path_join_entries_inj; auto.
      * intros p Hp Hin. apply in_map_iff in Hin as (e & <- & He).
        now apply (Hdis (path_join x e) e).
    + intros p p' Hp Hp' Hbl.
      apply in_app_or in Hp as [Hp|Hp], Hp' as [Hp'|Hp'].
      * auto.
      * apply in_map_iff in Hp' as (e & <- & He).
        apply below_to_entry in Hbl as [->|Hbl]; auto.
        exfalso. apply Hx. now rewrite <- (Ha p x) by auto.
      * apply in_map_iff in Hp as (e & <- & He).
        apply below_entry in Hbl; auto.
        exfalso. apply Hx. now rewrite (Ha x p') by auto.
      * apply in_map_iff in Hp as (e1 & <- & He1).
        apply in_map_iff in Hp' as (e2 & <- & He2).
        apply below_to_entry in Hbl as [->|Hbl]; auto.
        exfalso. apply (entry_not_above x e1); auto.
    + split; [exact Hnd|]. intros q Hin.
      destruct (Hq q Hin) as (p & Hp & Hbl).
      apply in_app_or in Hp as [Hp|Hp]; [exists p; auto|].
      apply in_map_iff in Hp as (e & <- & He).
      exists x. split; [exact Hxin|]. apply (below_entry x e); auto.
Qed.

End NoRepeat.

(** X9: where listings return plain names, each once, no path is
    discovered twice. *)
Theorem X9_no_path_twice (fuel : nat) (os : OS) (path : string)
  (exclude : list string) :
  (forall (d : string) (entries : list string) (e : string),
     listdir os d = Ok entries -> In e entries -> plain e) ->
  (forall (d : string) (entries : list string),
     listdir os d = Ok entries -> NoDup entries) ->
  NoDup (fst (get_markdown_files fuel os path exclude)).
Proof.
  intros Hplain Hnodup. unfold get_markdown_files.
  destruct (canonical_excludes os exclude []) as [aexclude|]; [|constructor].
  apply (walk_no_repeat os aexclude path Hplain Hnodup fuel [path]).
  - intros p [<-|[]]. exists []. split; [constructor | reflexivity].
  - repeat constructor. intros [].
  - intros p p' [<-|[]] [<-|[]] _. reflexivity.
Qed.

Lemma tree_os_nodup (cwd : string) (tree : list (string * node)) :
  Forall (fun pn => match snd pn with
                    | Dir entries => NoDup entries
                    | _ => True
                    end) tree ->
  forall (d : string) (entries : list string),
    listdir (tree_os cwd tree) d = Ok entries -> NoDup entries.
Proof.
  intros Ht d entries. simpl.
  induction Ht as [|[q n] tree Hn _ IH]; simpl; [discriminate|].
  destruct (q =? d)%string; [|exact IH].
  destruct n as [content|es|errno]; try discriminate.
  now intros [= <-].
Qed.

Lemma notes_listings_nodup (d : string) (entries : list string) :
  listdir notes_os d = Ok entries -> NoDup entries.
Proof.
  apply tree_os_nodup. unfold notes_tree.
  repeat constructor; simpl; intuition discriminate.
Qed.

Lemma X9_no_path_twice_witness :
  NoDup (fst (get_markdown_files 20 notes_os "notes" [])).
Proof.
  exact (X9_no_path_twice 20 notes_os "notes" []
           notes_listings_plain notes_listings_nodup).
Defined.

(** ** The starting path *)

(** X10: what the walk does with the starting path alone.  Excluded, it
    gives nothing; a file, it is the only path considered and is discovered
    exactly when it ends in [.md]; neither a file nor a directory, the walk
    fails at once; an empty directory gives nothing. *)
Theorem X10_starting_path (fuel : nat) (os : OS) (path : string)
  (exclude aexclude : list string) (a : string) :
  canonical_excludes os exclude [] = Ok aexclude ->
  abspath os path = Ok a ->
  (In a aexclude ->
     get_markdown_files (S (S fuel)) os path exclude = ([], Exhausted))
  /\ (~ In a aexclude -> isfile os path = true ->
      get_markdown_files (S (S fuel)) os path exclude
      = (if is_markdown path then [path] else [], Exhausted))
  /\ (~ In a aexclude -> isfile os path = false -> isdir os path = false ->
      get_markdown_files (S (S fuel)) os path exclude = ([], Failed))
  /\ (~ In a aexclude -> isfile os path = false -> isdir os path = true ->
      listdir os path = Ok [] ->
      get_markdown_files (S (S fuel)) os path exclude = ([], Exhausted)).
Proof.
  intros Hc Ha. unfold get_markdown_files. rewrite Hc.
  assert (walk_step os aexclude [path]
          = if excluded aexclude a then Next []
            else if isfile os path then
              if is_markdown path then Yield path [] else Next []
            else if isdir os path then
              match listdir os path with
              | Ok entries => Next (map (path_join path) entries)
              | IOError _ => Stop true
              end
            else Stop true) as Hstep
    by (unfold walk_step; simpl; now rewrite Ha).
  rewrite walk_unfold, Hstep.
  split; [|split; [|split]].
  - intros Hin. apply (excluded_In aexclude) in Hin. now rewrite Hin.
  - intros Hx Hf. apply (excluded_not_In aexclude) in Hx. rewrite Hx, Hf.
    now destruct (is_markdown path).
  - intros Hx Hf Hd. apply (excluded_not_In aexclude) in Hx.
    now rewrite Hx, Hf, Hd.
  - intros Hx Hf Hd Hl. apply (excluded_not_In aexclude) in Hx.
    now rewrite Hx, Hf, Hd, Hl.
Qed.

Lemma X10_starting_path_witness :
  get_markdown_files 2 notes_os "notes/a.md" [] = (["notes/a.md"], Exhausted)
  /\ get_markdown_files 2 notes_os "notes/b.txt" [] = ([], Exhausted)
  /\ get_markdown_files 2 notes_os "nowhere" [] = ([], Failed)
  /\ get_markdown_files 2 notes_os "notes" ["notes"] = ([], Exhausted).
Proof.
  destruct (X10_starting_path 0 notes_os "notes/a.md" [] [] _ eq_refl eq_refl)
    as (_ & H1 & _).
  destruct (X10_starting_path 0 notes_os "notes/b.txt" [] [] _ eq_refl eq_refl)
    as (_ & H2 & _).
  destruct (X10_starting_path 0 notes_os "nowhere" [] [] _ eq_refl eq_refl)
    as (_ & _ & H3 & _).
  destruct (X10_starting_path 0 notes_os "notes" ["notes"] _ _ eq_refl eq_refl)
    as (H4 & _).
  split; [|split; [|split]].
  - apply H1; [intros [] | reflexivity].
  - apply H2; [intros [] | reflexivity].
  - apply H3; [intros [] | reflexivity | reflexivity].
  - apply H4. now left.
Defined.

(** ** The run as a whole *)

Section Run.

Variable os : OS.




(** The first file that cannot be read ends the first loop with its error
    number. *)
Lemma collect_first_error (fuel : nat) (target : string)
  (aexclude todo pre : list string) (p : string) (post : list string)
  (w : walk_end) (e : Z) (todos : list Todo) :
  walk fuel os aexclude todo = (pre ++ p :: post, w) ->
  Forall (fun f => exists text, read_text os f = Ok text) pre ->
  read_text os p = IOError e ->
  collect fuel os target aexclude todo todos = Some (IOError e).
Proof.
  revert todo pre todos; induction fuel as [|fuel IH];
    intros todo pre todos H Hr Hp;
    [injection H as H _; now destruct pre|].
  rewrite walk_unfold in H. simpl.
  destruct (walk_step os aexclude todo) as [x todo'|todo'|failed].
  - destruct (walk fuel os aexclude todo') as [ps' e'] eqn:Ew.
    injection H as H ->. destruct pre as [|f pre]; simpl in H.
    + injection H as -> ->. unfold analyze_todos_in_file. now rewrite Hp.
    + injection H as -> ->. inversion Hr as [|? ? [text Hx] Hr']; subst.
      unfold analyze_todos_in_file. rewrite Hx.
      now apply (IH todo' pre _ Ew).
  - now apply (IH todo' pre).
  - injection H as H _. now destruct pre.
Qed.

End Run.

(** X11: the value [main] returns is 0, or the error number of a
    discovered file that could not be read, of the output that could not be
    opened, or of a write that failed.  No failure of the discovery shows in
    it. *)
Theorem X11_exit_code (fuel : nat) (os : OS) (path output : string)
  (exclude : list string) (target : string) (skip_done : bool)
  (code : Z) (written : list string) :
  main fuel os path output exclude target skip_done = Some (code, written) ->
  code = 0%Z
  \/ (exists p : string,
        In p (fst (get_markdown_files fuel os path exclude))
        /\ read_text os p = IOError code)
  \/ open_write os output = IOError code
  \/ (exists (w : list string) (chunk : string),
        write_error os output w chunk = Some code).
Proof. apply main_exit_code. Qed.

Lemma X11_exit_code_witness :
  13%Z = 0%Z
  \/ (exists p : string,
        In p (fst (get_markdown_files 20 unreadable_os "notes" []))
        /\ read_text unreadable_os p = IOError 13%Z)
  \/ open_write unreadable_os "-" = IOError 13%Z
  \/ (exists (w : list string) (chunk : string),
        write_error unreadable_os "-" w chunk = Some 13%Z).
Proof.
  exact (X11_exit_code 20 unreadable_os "notes" "-" [] "Sam" false 13%Z []
           eq_refl).
Defined.



(** X13: when a discovered file cannot be read, and the files discovered
    before it can, [main] returns the error number of that read at once: the
    output is not opened and nothing is written, whatever the walk would
    have done next. *)
Theorem X13_unreadable_file (fuel : nat) (os : OS) (path output : string)
  (exclude : list string) (target : string) (skip_done : bool)
  (pre : list string) (p : string) (post : list string) (w : walk_end)
  (e : Z) :
  get_markdown_files fuel os path exclude = (pre ++ p :: post, w) ->
  Forall (fun f => exists text, read_text os f = Ok text) pre ->
  read_text os p = IOError e ->
  main fuel os path output exclude target skip_done = Some (e, []).
Proof.
  unfold get_markdown_files, main, collect_todos.
  destruct (canonical_excludes os exclude []) as [aexclude|];
    [|intros [= H _]; now destruct pre].
  intros H Hr Hp.
  now rewrite (collect_first_error os fuel target aexclude [path] pre p post
                 w e [] H Hr Hp).
Qed.

Lemma X13_unreadable_file_witness :
  main 20 unreadable_os "notes" "out.txt" [] "Sam" false = Some (13%Z, []).
Proof.
  apply (X13_unreadable_file 20 unreadable_os "notes" "out.txt" [] "Sam" false
           [] "notes/old/d.md" ["notes/sub/c.md"; "notes/a.md"] Exhausted).
  - reflexivity.
  - constructor.
  - reflexivity.
Defined.



(** ** Diagnostics *)

(** X15: colour is used exactly when the platform is not Pocket PC, is not
    win32 without ANSICON, and the standard output has [isatty] and is a
    terminal.  Otherwise, and whenever colour is switched off by hand,
    [perror] prints the bare text after [ERROR: ] and [pdebug] the bare
    text after [DEBUG: ], with no escape sequence; with [DEBUG] off,
    [pdebug] prints nothing at all. *)
Theorem X15_plain_diagnostics (term : Terminal) (text end_ : string) :
  (_supports_color term = false
   <-> (platform term = "Pocket PC"
        \/ (platform term = "win32" /\ ansicon term = false)
        \/ has_isatty term = false
        \/ stdout_isatty term = false))
  /\ (_supports_color term = false ->
      perror term text end_ None = ("ERROR: " ++ text ++ end_)%string
      /\ pdebug true term text end_ None
         = Some ("DEBUG: " ++ text ++ end_)%string)
  /\ perror term text end_ (Some false) = ("ERROR: " ++ text ++ end_)%string
  /\ pdebug true term text end_ (Some false)
     = Some ("DEBUG: " ++ text ++ end_)%string
  /\ (forall use_colour : option bool,
        pdebug false term text end_ use_colour = None).
Proof.
  split; [|split; [|repeat split]].
  - unfold _supports_color. destruct term as [plat ans has tty]. simpl.
    destruct (String.eqb_spec plat "Pocket PC") as [->|Hp];
      [simpl; split; auto|].
    destruct (String.eqb_spec plat "win32") as [->|Hw].
    + destruct ans, has, tty; simpl; split; auto;
        intros [H|[[_ H]|[H|H]]]; discriminate.
    + destruct ans, has, tty; simpl; split; auto;
        intros [H|[[H _]|[H|H]]]; congruence.
  - intros H. unfold perror, pdebug. rewrite H. simpl. split; reflexivity.
Qed.

Lemma X15_plain_diagnostics_witness :
  perror (mkTerminal "linux" false true false) "Failed" nl None
  = ("ERROR: Failed" ++ nl)%string
  /\ pdebug true (mkTerminal "linux" false true false) "Excluding" nl None
     = Some ("DEBUG: Excluding" ++ nl)%string.
Proof.
  destruct (X15_plain_diagnostics (mkTerminal "linux" false true false)
              "Failed" nl) as (_ & H & _).
  destruct (X15_plain_diagnostics (mkTerminal "linux" false true false)
              "Excluding" nl) as (_ & H' & _).
  split; [apply H | apply H']; reflexivity.
Defined.
